(** * vibe-password-api: the password core ([src/password.ts]) and the
      [POST /strength] guard of [src/index.ts]

    The generator draws from [crypto.randomInt]; it is embedded in a small
    state-and-exception monad over an entropy tape.  The analyzer is a pure
    function of its input string.  JavaScript numbers that hold entropy and
    crack-time estimates are idealised as real numbers ([R]); counters,
    scores and lengths are integers. *)

From Stdlib Require Import Reals Lra ZArith QArith Lia List Ascii String
  DecimalString Permutation Qround.
From stdpp Require Import base option list strings gmap.

Local Open Scope Z_scope.
Local Open Scope list_scope.

(** ** JavaScript strings

    A JavaScript string is a sequence of UTF-16 code units; [.length],
    indexing, [substring] and the (non-unicode) regular expressions of the
    source all work on code units. *)

Abbreviation code_unit := N (only parsing).
Abbreviation jsstring := (list N) (only parsing).

(** A literal of the source, as code units. *)
Definition js (s : string) : jsstring :=
  map N_of_ascii (list_ascii_of_string s).

Definition cu (a : ascii) : code_unit := N_of_ascii a.

(** [c] occurs in the character class spelled by [cls]. *)
Definition in_class (cls : jsstring) (c : code_unit) : bool :=
  existsb (N.eqb c) cls.

(** [chars.replace(/[...]/g, '')]: drop every code unit of the class. *)
Definition replace_class (cls : string) (chars : jsstring) : jsstring :=
  filter (fun c => negb (in_class (js cls) c)) chars.

Module CHARS.
Definition uppercase : jsstring := js "ABCDEFGHIJKLMNOPQRSTUVWXYZ".
Definition lowercase : jsstring := js "abcdefghijklmnopqrstuvwxyz".
Definition numbers : jsstring := js "0123456789".
Definition symbols : jsstring := js "!@#$%^&*()_+-=[]{}|;:,.<>?".
Definition ambiguous : jsstring := js "Il1O0".
End CHARS.

(** ** The entropy source and the effect monad *)

(** What a [throw] carries: the constructor of the error and its message. *)
Inductive exn : Type :=
| Error (msg : string)
| RangeError (msg : string)
| TypeError (msg : string).

Inductive outcome (A : Type) : Type :=
| Ok (a : A)
| Throw (e : exn).
Arguments Ok {A} a.
Arguments Throw {A} e.

(** The operating system's entropy, as an unbounded tape of raw draws and
    the number of draws consumed so far. *)
Record Entropy : Type := { tape : nat -> nat; cursor : nat }.

Definition advance (w : Entropy) : Entropy :=
  {| tape := tape w; cursor := S (cursor w) |}.

Definition M (A : Type) : Type := Entropy -> outcome A * Entropy.

Definition ret {A} (a : A) : M A := fun w => (Ok a, w).

Definition throw {A} (e : exn) : M A := fun w => (Throw e, w).

Definition bind {A B} (m : M A) (k : A -> M B) : M B :=
  fun w => match m w with
           | (Ok a, w') => k a w'
           | (Throw e, w') => (Throw e, w')
           end.

Notation "'let*' x ':=' m 'in' k" := (bind m (fun x => k))
  (at level 10, x name, m at level 100, k at level 200).

(** A name between double quotes, as the messages of Node print it. *)
Definition quoted (name : string) : string :=
  String "034"%char (name ++ String "034"%char EmptyString).

Definition show_nat (n : nat) : string :=
  NilZero.string_of_uint (Nat.to_uint n).

(** The message of the [RangeError] (code [ERR_OUT_OF_RANGE]) that
    [crypto.randomInt] throws when [max <= min]. *)
Definition out_of_range_message (min max : nat) : string :=
  ("The value of " ++ quoted "max"
   ++ " is out of range. It must be greater than the value of "
   ++ quoted "min" ++ " (" ++ show_nat min ++ "). Received "
   ++ show_nat max)%string.

(** [crypto.randomInt(min, max)]: an integer of [[min, max)], a [RangeError]
    unless [min < max].  The arguments here are array lengths, below 2^32:
    the library's other guards, for unsafe integers and for a range above
    2^48 - 1, and the digit separators it prints in numbers above 2^32, are
    out of their reach and left out. *)
Definition randomInt (min max : nat) : M nat :=
  fun w =>
    if (min <? max)%nat
    then (Ok (min + tape w (cursor w) mod (max - min))%nat, advance w)
    else (Throw (RangeError (out_of_range_message min max)), w).

(** ** [secureRandomChar]

    [chars[randomIndex]] is a one-character string; an index out of range
    would read [undefined], which [join] renders as the empty string. *)
Definition secureRandomChar (chars : jsstring) : M jsstring :=
  let* randomIndex := randomInt 0 (length chars) in
  ret (match chars !! randomIndex with
       | Some c => [c]
       | None => []
       end).

(** ** [secureShuffleArray] *)

(** [[result[i], result[j]] = [result[j], result[i]]]: both cells are read
    first, then [result[i]] and [result[j]] are written in that order.  The
    loop only swaps cells inside the array (lemma [shuffle_loop_spec]); an
    index outside it leaves the list as it is. *)
Definition swap {T} (result : list T) (i j : nat) : list T :=
  match result !! j, result !! i with
  | Some rj, Some ri => <[j := ri]> (<[i := rj]> result)
  | _, _ => result
  end.

(** [for (let i = result.length - 1; i > 0; i--)], by recursion on [i]. *)
Fixpoint shuffle_loop {T} (i : nat) (result : list T) : M (list T) :=
  match i with
  | O => ret result
  | S i' =>
      let* j := randomInt 0 (i + 1) in
      shuffle_loop i' (swap result i j)
  end.

Definition secureShuffleArray {T} (array : list T) : M (list T) :=
  let result := array in
  shuffle_loop (length result - 1) result.

(** ** [generatePassword] *)

Module Opt.
(** [GenerateOptions]: every field may be absent. *)
Record t : Type := mk {
  length : option Z;
  uppercase : option bool;
  lowercase : option bool;
  numbers : option bool;
  symbols : option bool;
  excludeAmbiguous : option bool;
}.
End Opt.
Abbreviation GenerateOptions := Opt.t.

(** [charset += chars; required.push(secureRandomChar(chars))]. *)
Definition push_class (chars : jsstring) (st : jsstring * list jsstring)
  : M (jsstring * list jsstring) :=
  let '(charset, required) := st in
  let* c := secureRandomChar chars in
  ret (charset ++ chars, required ++ [c]).

(** [for (let i = required.length; i < minLength; i++)
      remaining.push(secureRandomChar(charset))], by recursion on the number
    of iterations left. *)
Fixpoint fill_remaining (n : nat) (charset : jsstring)
    (remaining : list jsstring) : M (list jsstring) :=
  match n with
  | O => ret remaining
  | S n' =>
      let* c := secureRandomChar charset in
      fill_remaining n' charset (remaining ++ [c])
  end.

(** [array.join('')]. *)
Definition join (parts : list jsstring) : jsstring := concat parts.

Definition generatePassword (options : GenerateOptions) : M jsstring :=
  let length_ := default 16 (Opt.length options) in
  let uppercase := default true (Opt.uppercase options) in
  let lowercase := default true (Opt.lowercase options) in
  let numbers := default true (Opt.numbers options) in
  let symbols := default true (Opt.symbols options) in
  let excludeAmbiguous := default false (Opt.excludeAmbiguous options) in
  let* st := (if uppercase
         then push_class (if excludeAmbiguous
                          then replace_class "IO" CHARS.uppercase
                          else CHARS.uppercase) ([], [])
         else ret ([], [])) in
  let* st := (if lowercase
         then push_class (if excludeAmbiguous
                          then replace_class "l" CHARS.lowercase
                          else CHARS.lowercase) st
         else ret st) in
  let* st := (if numbers
         then push_class (if excludeAmbiguous
                          then replace_class "01" CHARS.numbers
                          else CHARS.numbers) st
         else ret st) in
  let* st := (if symbols then push_class CHARS.symbols st else ret st) in
  let '(charset, required) := st in
  if (length charset =? 0)%nat
  then throw (Error "At least one character type must be enabled")
  else
    let minLength := Z.max length_ (Z.of_nat (length required)) in
    let* remaining := fill_remaining
                   (Z.to_nat (minLength - Z.of_nat (length required)))
                   charset [] in
    let allChars := required ++ remaining in
    let* shuffled := secureShuffleArray allChars in
    ret (join shuffled).

(** ** [generateBatch] *)

(** [for (let i = 0; i < maxCount; i++)
      passwords.push(generatePassword(options))]. *)
Fixpoint batch_loop (n : nat) (options : GenerateOptions)
    (passwords : list jsstring) : M (list jsstring) :=
  match n with
  | O => ret passwords
  | S n' =>
      let* p := generatePassword options in
      batch_loop n' options (passwords ++ [p])
  end.

Definition generateBatch (count : Z) (options : GenerateOptions)
  : M (list jsstring) :=
  let maxCount := Z.min count 100 in
  batch_loop (Z.to_nat maxCount) options [].

(** ** [analyzeStrength] *)

(** *** The regular expressions of the analyzer

    [re.test(s)] without anchors succeeds when the pattern matches at some
    position of [s]; [here] decides a match that starts at the head of its
    argument. *)
Fixpoint regex_test (here : jsstring -> bool) (s : jsstring) : bool :=
  here s || match s with
            | [] => false
            | _ :: t => regex_test here t
            end.

Definition between (lo hi : string) (c : code_unit) : bool :=
  match js lo, js hi with
  | [l], [h] => ((l <=? c) && (c <=? h))%N
  | _, _ => false
  end.

(** [[a-z]], [[A-Z]], [\d] (in JavaScript exactly [[0-9]]) and the symbol
    class [[!@#$%^&*()_+\-=\[\]{}|;:,.<>?]]. *)
Definition is_lower (c : code_unit) : bool := between "a" "z" c.
Definition is_upper (c : code_unit) : bool := between "A" "Z" c.
Definition is_digit (c : code_unit) : bool := between "0" "9" c.
Definition is_symbol (c : code_unit) : bool :=
  in_class (js "!@#$%^&*()_+-=[]{}|;:,.<>?") c.

(** A single character class at the head: one code unit of the class. *)
Definition class_here (cls : code_unit -> bool) (s : jsstring) : bool :=
  match s with
  | c :: _ => cls c
  | [] => false
  end.

(** [.] matches every code unit but the line terminators LF, CR, U+2028
    and U+2029. *)
Definition is_line_terminator (c : code_unit) : bool :=
  ((c =? 10) || (c =? 13) || (c =? 8232) || (c =? 8233))%N.

(** [/(.)\1{2,}/] at the head: a code unit and two more copies of it. *)
Definition repeat_here (s : jsstring) : bool :=
  match s with
  | a :: b :: c :: _ =>
      (negb (is_line_terminator a) && (b =? a) && (c =? a))%N
  | _ => false
  end.

(** [/^[...]+$/]: one or more code units, all of the class. *)
Definition all_of (cls : code_unit -> bool) (s : jsstring) : bool :=
  negb (length s =? 0)%nat && forallb cls s.

(** The canonical form the [i] flag compares: the upper-case letter.  Only
    the ASCII letters matter, since no code unit above 127 is canonicalised
    to an ASCII one and the patterns are ASCII. *)
Definition canonicalize (c : code_unit) : code_unit :=
  if is_lower c then (c - 32)%N else c.

(** The literal [pat] matches at the head of [s], ignoring case. *)
Fixpoint literal_here_i (pat s : jsstring) : bool :=
  match pat, s with
  | [], _ => true
  | p :: pat', c :: s' =>
      (canonicalize p =? canonicalize c)%N && literal_here_i pat' s'
  | _ :: _, [] => false
  end.

(** [/(?:p1|p2|...)/i] at the head. *)
Definition alternation_here_i (pats : list string) (s : jsstring) : bool :=
  existsb (fun pat => literal_here_i (js pat) s) pats.

Definition sequential_patterns : list string :=
  [ "abc"; "bcd"; "cde"; "def"; "efg"; "fgh"; "ghi"; "hij"; "ijk"; "jkl";
    "klm"; "lmn"; "mno"; "nop"; "opq"; "pqr"; "qrs"; "rst"; "stu"; "tuv";
    "uvw"; "vwx"; "wxy"; "xyz"; "012"; "123"; "234"; "345"; "456"; "567";
    "678"; "789" ]%string.

Definition keyboard_patterns : list string :=
  [ "qwert"; "asdf"; "zxcv" ]%string.

(** *** Numbers *)

(** [Math.log2]. *)
Definition log2 (x : R) : R := (ln x / ln 2)%R.

(** [Math.round]: the nearest integer, halves upwards. *)
Definition Math_round (x : R) : Z := Int_part (x + / 2)%R.

(** The decimal rendering of an integer inside a template literal. *)
Definition show_int (z : Z) : jsstring :=
  js (NilZero.string_of_int (Z.to_int z)).

(** *** [estimateCrackTime] *)

Definition guessesPerSecond : R := 10000000000%R.

Definition crack_seconds (entropy : R) : R :=
  let combinations := Rpower 2 entropy in
  (combinations / guessesPerSecond / 2)%R.

Definition estimateCrackTime (entropy : R) : jsstring :=
  let seconds := crack_seconds entropy in
  if Rlt_dec seconds 1 then js "instant"
  else if Rlt_dec seconds 60
  then show_int (Math_round seconds) ++ js " seconds"
  else if Rlt_dec seconds 3600
  then show_int (Math_round (seconds / 60)) ++ js " minutes"
  else if Rlt_dec seconds 86400
  then show_int (Math_round (seconds / 3600)) ++ js " hours"
  else if Rlt_dec seconds 31536000
  then show_int (Math_round (seconds / 86400)) ++ js " days"
  else if Rlt_dec seconds (31536000 * 100)
  then show_int (Math_round (seconds / 31536000)) ++ js " years"
  else if Rlt_dec seconds (31536000 * 1000000)
  then show_int (Math_round (seconds / 31536000 / 1000))
         ++ js " thousand years"
  else if Rlt_dec seconds (31536000 * 1000000000)
  then show_int (Math_round (seconds / 31536000 / 1000000))
         ++ js " million years"
  else js "billions of years".

(** *** The analyzer *)

Inductive Level : Type := very_weak | weak | fair | strong | very_strong.

Record StrengthResult : Type := {
  password : jsstring;
  score : Z;
  level : Level;
  feedback : list jsstring;
  entropy : R;
  crackTime : jsstring;
}.

(** The alphabet size the entropy estimate assumes. *)
Definition charsetSize_of (hasLower hasUpper hasNumber hasSymbol : bool) : Z :=
  let charsetSize := 0 in
  let charsetSize := if hasLower then charsetSize + 26 else charsetSize in
  let charsetSize := if hasUpper then charsetSize + 26 else charsetSize in
  let charsetSize := if hasNumber then charsetSize + 10 else charsetSize in
  let charsetSize := if hasSymbol then charsetSize + 32 else charsetSize in
  charsetSize.

(** [password.length * Math.log2(charsetSize || 1)]. *)
Definition raw_entropy (len : nat) (charsetSize : Z) : R :=
  (IZR (Z.of_nat len)
   * log2 (IZR (if charsetSize =? 0 then 1 else charsetSize)))%R.

Definition analyzeStrength (pw : jsstring) : StrengthResult :=
  let feedback : list jsstring := [] in
  let score := 0 in
  let len := Z.of_nat (length pw) in
  (* Length scoring *)
  let score := if 8 <=? len then score + 1 else score in
  let score := if 12 <=? len then score + 1 else score in
  let score := if 16 <=? len then score + 1 else score in
  let score := if 20 <=? len then score + 1 else score in
  (* Character variety *)
  let hasLower := regex_test (class_here is_lower) pw in
  let hasUpper := regex_test (class_here is_upper) pw in
  let hasNumber := regex_test (class_here is_digit) pw in
  let hasSymbol := regex_test (class_here is_symbol) pw in
  let score := if hasLower then score + 1 else score in
  let score := if hasUpper then score + 1 else score in
  let score := if hasNumber then score + 1 else score in
  let score := if hasSymbol then score + 1 else score in
  (* Penalties; the two updates of a block share its test *)
  let tooShort := len <? 8 in
  let feedback :=
    if tooShort
    then feedback ++ [js "Password is too short (minimum 8 characters)"]
    else feedback in
  let score := if tooShort then score - 2 else score in
  let feedback :=
    if negb hasLower then feedback ++ [js "Add lowercase letters"]
    else feedback in
  let feedback :=
    if negb hasUpper then feedback ++ [js "Add uppercase letters"]
    else feedback in
  let feedback :=
    if negb hasNumber then feedback ++ [js "Add numbers"] else feedback in
  let feedback :=
    if negb hasSymbol then feedback ++ [js "Add special characters"]
    else feedback in
  (* Common patterns *)
  let repeated := regex_test repeat_here pw in
  let feedback :=
    if repeated then feedback ++ [js "Avoid repeated characters"]
    else feedback in
  let score := if repeated then score - 1 else score in
  let lettersOnly := all_of (fun c => is_lower c || is_upper c) pw in
  let feedback :=
    if lettersOnly then feedback ++ [js "Mix in numbers and symbols"]
    else feedback in
  let score := if lettersOnly then score - 1 else score in
  let digitsOnly := all_of is_digit pw in
  let feedback :=
    if digitsOnly then feedback ++ [js "Include letters and symbols"]
    else feedback in
  let score := if digitsOnly then score - 2 else score in
  (* Sequential patterns *)
  let sequential := regex_test (alternation_here_i sequential_patterns) pw in
  let feedback :=
    if sequential then feedback ++ [js "Avoid sequential patterns"]
    else feedback in
  let score := if sequential then score - 1 else score in
  (* Keyboard patterns *)
  let keyboard := regex_test (alternation_here_i keyboard_patterns) pw in
  let feedback :=
    if keyboard then feedback ++ [js "Avoid keyboard patterns"]
    else feedback in
  let score := if keyboard then score - 1 else score in
  (* Calculate entropy *)
  let charsetSize := charsetSize_of hasLower hasUpper hasNumber hasSymbol in
  let entropy := raw_entropy (length pw) charsetSize in
  (* Normalize score *)
  let score := Z.max 0 (Z.min 10 score) in
  (* Determine level *)
  let level :=
    if score <=? 2 then very_weak
    else if score <=? 4 then weak
    else if score <=? 6 then fair
    else if score <=? 8 then strong
    else very_strong in
  (* Estimate crack time *)
  let crackTime := estimateCrackTime entropy in
  let feedback :=
    if (length feedback =? 0)%nat
    then feedback ++ [js "Password looks strong!"]
    else feedback in
  {| password := firstn 3 pw
                   ++ repeat (cu "*") (Z.to_nat (Z.max 0 (len - 3)));
     score := score;
     level := level;
     feedback := feedback;
     entropy := (IZR (Math_round (entropy * 100)) / 100)%R;
     crackTime := crackTime |}.

(** The call as its caller sees it: the analyzer has no [throw] statement
    and never reads the entropy source. *)
Definition analyze (pw : jsstring) : M StrengthResult :=
  ret (analyzeStrength pw).

(** ** The [POST /strength] handler of [src/index.ts] *)

(** A value of a parsed JSON body, or [undefined] for a missing field.  The
    contents of arrays and objects play no part in the guard. *)
Inductive JsValue : Type :=
| JUndefined
| JNull
| JBool (b : bool)
| JNumber (q : Q)
| JString (s : jsstring)
| JArray
| JObject.

(** [!v] is false exactly on the truthy values. *)
Definition truthy (v : JsValue) : bool :=
  match v with
  | JUndefined | JNull => false
  | JBool b => b
  | JNumber q => negb (Qeq_bool q 0)
  | JString s => negb (length s =? 0)%nat
  | JArray | JObject => true
  end.

Definition typeof (v : JsValue) : string :=
  match v with
  | JUndefined => "undefined"
  | JNull | JArray | JObject => "object"
  | JBool _ => "boolean"
  | JNumber _ => "number"
  | JString _ => "string"
  end.

Inductive Response : Type :=
| Json200 (result : StrengthResult)
| Json400 (error : string).

(** The body of the [try] block: the guards, then the core. *)
Definition strength_try (body : gmap string JsValue) : outcome StrengthResult :=
  let password := default JUndefined (body !! "password"%string) in
  if negb (truthy password) || negb (String.eqb (typeof password) "string")
  then Throw (Error "Password is required")
  else
    match password with
    | JString s =>
        if (1000 <? length s)%nat
        then Throw (Error "Password too long (max 1000 characters)")
        else Ok (analyzeStrength s)
    | _ => Throw (Error "Password is required") (* typeof is "string" here *)
    end.

(** [res.json] on success, [res.status(400).json] with the message of the
    caught error otherwise. *)
Definition strength_handler (body : gmap string JsValue) : Response :=
  match strength_try body with
  | Ok result => Json200 result
  | Throw (Error msg) | Throw (RangeError msg) | Throw (TypeError msg) =>
      Json400 msg
  end.

(** * Reasoning about the effect monad *)

(** [post m w Q]: from the entropy state [w], [m] returns normally, with a
    value and a final state that satisfy [Q]. *)
Definition post {A} (m : M A) (w : Entropy) (Q : A -> Entropy -> Prop) : Prop :=
  match m w with
  | (Ok a, w') => Q a w'
  | (Throw _, _) => False
  end.

(** [w'] is [w] after exactly [n] more draws. *)
Definition consumed (n : nat) (w w' : Entropy) : Prop :=
  tape w' = tape w /\ cursor w' = (cursor w + n)%nat.

(** The characters of a list of one-character strings. *)
Definition singletons (cs : jsstring) : list jsstring := map (fun c => [c]) cs.

(** * The vocabulary of the generator's specification *)

(** The options after the defaults of the destructuring pattern. *)
Definition requested_length (o : GenerateOptions) : Z :=
  default 16 (Opt.length o).
Definition uppercase_on (o : GenerateOptions) : bool :=
  default true (Opt.uppercase o).
Definition lowercase_on (o : GenerateOptions) : bool :=
  default true (Opt.lowercase o).
Definition numbers_on (o : GenerateOptions) : bool :=
  default true (Opt.numbers o).
Definition symbols_on (o : GenerateOptions) : bool :=
  default true (Opt.symbols o).
Definition exclude_on (o : GenerateOptions) : bool :=
  default false (Opt.excludeAmbiguous o).

Definition any_class (o : GenerateOptions) : bool :=
  uppercase_on o || lowercase_on o || numbers_on o || symbols_on o.

Definition enabled_classes (o : GenerateOptions) : nat :=
  (Nat.b2n (uppercase_on o) + Nat.b2n (lowercase_on o)
   + Nat.b2n (numbers_on o) + Nat.b2n (symbols_on o))%nat.

(** The effective charset of each class. *)
Definition uppercase_chars (o : GenerateOptions) : jsstring :=
  if exclude_on o then replace_class "IO" CHARS.uppercase else CHARS.uppercase.
Definition lowercase_chars (o : GenerateOptions) : jsstring :=
  if exclude_on o then replace_class "l" CHARS.lowercase else CHARS.lowercase.
Definition numbers_chars (o : GenerateOptions) : jsstring :=
  if exclude_on o then replace_class "01" CHARS.numbers else CHARS.numbers.
Definition symbols_chars (_ : GenerateOptions) : jsstring := CHARS.symbols.

Definition when_on (b : bool) (chars : jsstring) : jsstring :=
  if b then chars else [].

(** The cumulative charset. *)
Definition pool (o : GenerateOptions) : jsstring :=
  when_on (uppercase_on o) (uppercase_chars o)
  ++ when_on (lowercase_on o) (lowercase_chars o)
  ++ when_on (numbers_on o) (numbers_chars o)
  ++ when_on (symbols_on o) (symbols_chars o).

(** [p] is what an enabled class contributes to [required]: one character
    of [chars], or nothing for a disabled class. *)
Definition picked (b : bool) (chars p : jsstring) : Prop :=
  if b then exists c, p = [c] /\ c ∈ chars else p = [].

(** The passwords of successive calls of the generator, each call starting
    from the entropy state the previous one left. *)
Inductive successive (o : GenerateOptions)
  : Entropy -> list jsstring -> Entropy -> Prop :=
| successive_nil w : successive o w [] w
| successive_cons w p w1 ps w2 :
    generatePassword o w = (Ok p, w1) ->
    (cursor w < cursor w1)%nat ->
    successive o w1 ps w2 ->
    successive o w (p :: ps) w2.

(** A fixed entropy tape and option records for the examples. *)
Definition sample_entropy : Entropy :=
  {| tape := fun n => (7 * n + 3)%nat; cursor := 0 |}.

Definition default_options : GenerateOptions :=
  Opt.mk None None None None None None.

Definition no_class_options : GenerateOptions :=
  Opt.mk None (Some false) (Some false) (Some false) (Some false) None.

Definition unambiguous_options : GenerateOptions :=
  Opt.mk (Some 12) None None None None (Some true).


(** * The vocabulary of the analyzer's specification *)

(** The alphabet size of a password, by membership of its characters in the
    four classes. *)
Definition alphabet_size (pw : jsstring) : Z :=
  (if existsb is_lower pw then 26 else 0)
  + (if existsb is_upper pw then 26 else 0)
  + (if existsb is_digit pw then 10 else 0)
  + (if existsb is_symbol pw then 32 else 0).

(** The entropy estimate before it is rounded for the result. *)
Definition entropy_bits (pw : jsstring) : R :=
  raw_entropy (length pw) (alphabet_size pw).


(** ** The generating routes of [src/index.ts] *)

(** A JavaScript number as [Number(...)] can return it. *)
Inductive JsNum : Type :=
| NaN
| Fin (q : Q)
| PosInf
| NegInf.

Definition isNaN (n : JsNum) : bool :=
  match n with
  | NaN => true
  | _ => false
  end.

(** [n < q] and [n > q] against a finite literal; both are false on NaN. *)
Definition num_lt (n : JsNum) (q : Q) : bool :=
  match n with
  | NaN | PosInf => false
  | Fin x => negb (Qle_bool q x)
  | NegInf => true
  end.

Definition num_gt (n : JsNum) (q : Q) : bool :=
  match n with
  | NaN | NegInf => false
  | Fin x => negb (Qle_bool x q)
  | PosInf => true
  end.

(** [body.key], with [undefined] for a missing key; [present] is the test
    [body.key !== undefined]. *)
Definition present (v : option JsValue) : option JsValue :=
  match v with
  | None | Some JUndefined => None
  | Some v => Some v
  end.

(** [error instanceof Error ? error.message : 'Unknown error']: every kind
    of error thrown here is an instance of [Error]. *)
Definition message (e : exn) : string :=
  match e with
  | Error msg | RangeError msg | TypeError msg => msg
  end.

Module Req.
(** The options object [validateGenerateOptions] builds: a
    [GenerateOptions] whose length is whatever number passed the bounds,
    whole or not. *)
Record t : Type := mk {
  length : option Q;
  uppercase : option bool;
  lowercase : option bool;
  numbers : option bool;
  symbols : option bool;
  excludeAmbiguous : option bool;
}.
End Req.

(** The same options as the core reads them.  [generatePassword] uses the
    length only in [Math.max(length, required.length)] and in the loop test
    [i < minLength] against a whole [i], where a fractional length counts as
    the next whole number. *)
Definition core_options (o : Req.t) : GenerateOptions :=
  Opt.mk (Qceiling <$> Req.length o) (Req.uppercase o) (Req.lowercase o)
         (Req.numbers o) (Req.symbols o) (Req.excludeAmbiguous o).

(** The [options] object of a successful response, defaults filled in by
    [??]. *)
Record EchoedOptions : Type := {
  echo_length : Q;
  echo_uppercase : bool;
  echo_lowercase : bool;
  echo_numbers : bool;
  echo_symbols : bool;
  echo_excludeAmbiguous : bool;
}.

Definition echo (options : Req.t) : EchoedOptions :=
  {| echo_length := default 16%Q (Req.length options);
     echo_uppercase := default true (Req.uppercase options);
     echo_lowercase := default true (Req.lowercase options);
     echo_numbers := default true (Req.numbers options);
     echo_symbols := default true (Req.symbols options);
     echo_excludeAmbiguous := default false (Req.excludeAmbiguous options) |}.

Inductive GenerateResponse : Type :=
| Generate200 (password : jsstring) (options : EchoedOptions)
| Generate400 (error : string).

Inductive BatchResponse : Type :=
| Batch200 (count : nat) (passwords : list jsstring) (options : EchoedOptions)
| Batch400 (error : string).

Section Routes.

(** [Number(v)] on a string, an array or an object follows the language's
    own conversion rules, which are no part of this repository: it yields a
    number, or throws a [TypeError] with the given message when an object
    (or an element of an array) has no callable [valueOf] or [toString]. *)
Variable ToNumber_other : JsValue -> JsNum + string.

Definition ToNumber (v : JsValue) : outcome JsNum :=
  match v with
  | JUndefined => Ok NaN
  | JNull => Ok (Fin 0)
  | JBool b => Ok (Fin (if b then 1 else 0))
  | JNumber q => Ok (Fin q)
  | JString _ | JArray | JObject =>
      match ToNumber_other v with
      | inl n => Ok n
      | inr msg => Throw (TypeError msg)
      end
  end.

(** [validateGenerateOptions]. *)
Definition validateGenerateOptions (body : gmap string JsValue)
  : outcome Req.t :=
  let checked_length : outcome (option Q) :=
    match present (body !! "length"%string) with
    | Some v =>
        match ToNumber v with
        | Throw e => Throw e
        | Ok length_ =>
            if isNaN length_ || num_lt length_ 4 || num_gt length_ 128
            then Throw (Error "Length must be between 4 and 128")
            else
              match length_ with
              | Fin q => Ok (Some q)
              | _ => Throw (Error "Length must be between 4 and 128")
                     (* no other number passes the test *)
              end
        end
    | None => Ok None
    end in
  match checked_length with
  | Throw e => Throw e
  | Ok length_ =>
      Ok (Req.mk length_
            (truthy <$> present (body !! "uppercase"%string))
            (truthy <$> present (body !! "lowercase"%string))
            (truthy <$> present (body !! "numbers"%string))
            (truthy <$> present (body !! "symbols"%string))
            (truthy <$> present (body !! "excludeAmbiguous"%string)))
  end.

(** The [POST /generate] handler: what it answers, and the entropy state it
    leaves. *)
Definition generate_handler (body : gmap string JsValue) (w : Entropy)
  : GenerateResponse * Entropy :=
  match validateGenerateOptions body with
  | Throw e => (Generate400 (message e), w)
  | Ok options =>
      match generatePassword (core_options options) w with
      | (Ok password, w') => (Generate200 password (echo options), w')
      | (Throw e, w') => (Generate400 (message e), w')
      end
  end.

(** The [POST /batch] handler.  [count] defaults to 5 when the body has
    none; a fractional count runs the loop of [generateBatch] as its next
    whole number does. *)
Definition batch_handler (body : gmap string JsValue) (w : Entropy)
  : BatchResponse * Entropy :=
  let count := default (JNumber 5) (present (body !! "count"%string)) in
  let rest := delete "count"%string body in
  match count with
  | JNumber q =>
      if negb (Qle_bool 1 q) || negb (Qle_bool q 100)
      then (Batch400 "Count must be between 1 and 100", w)
      else
        match validateGenerateOptions rest with
        | Throw e => (Batch400 (message e), w)
        | Ok options =>
            match generateBatch (Qceiling q) (core_options options) w with
            | (Ok passwords, w') =>
                (Batch200 (length passwords) passwords (echo options), w')
            | (Throw e, w') => (Batch400 (message e), w')
            end
        end
  | _ => (* typeof count !== 'number' *)
      (Batch400 "Count must be between 1 and 100", w)
  end.

End Routes.

(** * The vocabulary of the further properties *)

(** What a character of the cumulative charset tells about the flags. *)
Definition flags_allow (o : GenerateOptions) (c : N) : bool :=
  implb (is_upper c) (uppercase_on o) && implb (is_lower c) (lowercase_on o)
  && implb (is_digit c) (numbers_on o) && implb (is_symbol c) (symbols_on o)
  && (is_upper c || is_lower c || is_digit c || is_symbol c).


(** The terms of the score, before it is clamped. *)
Definition length_bonus (pw : jsstring) : Z :=
  let len := Z.of_nat (length pw) in
  Z.b2z (8 <=? len) + Z.b2z (12 <=? len) + Z.b2z (16 <=? len)
  + Z.b2z (20 <=? len).

Definition class_bonus (pw : jsstring) : Z :=
  Z.b2z (existsb is_lower pw) + Z.b2z (existsb is_upper pw)
  + Z.b2z (existsb is_digit pw) + Z.b2z (existsb is_symbol pw).

Definition is_letter (c : code_unit) : bool := is_lower c || is_upper c.

Definition penalties (pw : jsstring) : Z :=
  2 * Z.b2z (Z.of_nat (length pw) <? 8)
  + Z.b2z (regex_test repeat_here pw)
  + Z.b2z (all_of is_letter pw)
  + 2 * Z.b2z (all_of is_digit pw)
  + Z.b2z (regex_test (alternation_here_i sequential_patterns) pw)
  + Z.b2z (regex_test (alternation_here_i keyboard_patterns) pw).

(** The level of a clamped score. *)
Definition level_of (score : Z) : Level :=
  if score <=? 2 then very_weak
  else if score <=? 4 then weak
  else if score <=? 6 then fair
  else if score <=? 8 then strong
  else very_strong.

(** One piece of advice, given or not. *)
Definition advice_if (b : bool) (msg : string) : list jsstring :=
  if b then [js msg] else [].

(** The advice of the rules, in the order the rules are tried. *)
Definition advice (pw : jsstring) : list jsstring :=
  advice_if (Z.of_nat (length pw) <? 8)
            "Password is too short (minimum 8 characters)"
  ++ advice_if (negb (existsb is_lower pw)) "Add lowercase letters"
  ++ advice_if (negb (existsb is_upper pw)) "Add uppercase letters"
  ++ advice_if (negb (existsb is_digit pw)) "Add numbers"
  ++ advice_if (negb (existsb is_symbol pw)) "Add special characters"
  ++ advice_if (regex_test repeat_here pw) "Avoid repeated characters"
  ++ advice_if (all_of is_letter pw) "Mix in numbers and symbols"
  ++ advice_if (all_of is_digit pw) "Include letters and symbols"
  ++ advice_if (regex_test (alternation_here_i sequential_patterns) pw)
               "Avoid sequential patterns"
  ++ advice_if (regex_test (alternation_here_i keyboard_patterns) pw)
               "Avoid keyboard patterns".

(** The ten pieces of advice, in the order of the rules. *)
Definition all_advice : list jsstring :=
  [ js "Password is too short (minimum 8 characters)";
    js "Add lowercase letters"; js "Add uppercase letters";
    js "Add numbers"; js "Add special characters";
    js "Avoid repeated characters"; js "Mix in numbers and symbols";
    js "Include letters and symbols"; js "Avoid sequential patterns";
    js "Avoid keyboard patterns" ].

(** Bodies for the examples: a request for no class, spelled with four
    different falsy values, and a request for seven passwords and a half. *)
Definition falsy_flags_body : gmap string JsValue :=
  <[ "uppercase"%string := JBool false ]>
    (<[ "lowercase"%string := JNumber 0 ]>
       (<[ "numbers"%string := JNull ]>
          {[ "symbols"%string := JString [] ]})).

Definition fractional_batch_body : gmap string JsValue :=
  <[ "count"%string := JNumber 7.5 ]> {[ "length"%string := JNumber 9.25 ]}.

Lemma consumed_0 w : consumed 0 w w.
Proof. split; [reflexivity | lia]. Qed.

Lemma consumed_advance w : consumed 1 w (advance w).
Proof. split; [reflexivity | simpl; lia]. Qed.

Lemma consumed_trans n m w1 w2 w3 :
  consumed n w1 w2 -> consumed m w2 w3 -> consumed (n + m) w1 w3.
Proof. intros [T1 C1] [T2 C2]. split; [congruence | lia]. Qed.

Lemma post_ret {A} (a : A) w (Q : A -> Entropy -> Prop) :
  Q a w -> post (ret a) w Q.
Proof. exact (fun H => H). Qed.

Lemma post_bind {A B} (m : M A) (k : A -> M B) w (Q : B -> Entropy -> Prop) :
  post m w (fun a w' => post (k a) w' Q) -> post (bind m k) w Q.
Proof.
  unfold post, bind. destruct (m w) as [[a | e] w']; trivial.
Qed.

Lemma post_elim {A} (m : M A) w (Q : A -> Entropy -> Prop) :
  post m w Q -> exists a w', m w = (Ok a, w') /\ Q a w'.
Proof.
  unfold post. destruct (m w) as [[a | e] w']; [eauto | contradiction].
Qed.

Lemma post_randomInt (min max : nat) w (Q : nat -> Entropy -> Prop) :
  (min < max)%nat ->
  (forall r, (min <= r < max)%nat -> Q r (advance w)) ->
  post (randomInt min max) w Q.
Proof.
  intros Hlt HQ. unfold post, randomInt.
  destruct (Nat.ltb_spec min max) as [_ | Hge]; [| lia].
  apply HQ.
  pose proof (Nat.mod_upper_bound (tape w (cursor w)) (max - min)). lia.
Qed.

Lemma post_secureRandomChar (chars : jsstring) w
    (Q : jsstring -> Entropy -> Prop) :
  chars <> [] ->
  (forall c, c ∈ chars -> Q [c] (advance w)) ->
  post (secureRandomChar chars) w Q.
Proof.
  intros Hne HQ. unfold secureRandomChar. apply post_bind.
  apply post_randomInt.
  - destruct chars; [congruence | simpl; lia].
  - intros r [_ Hr]. apply post_ret.
    destruct (lookup_lt_is_Some_2 chars r Hr) as [c Hc].
    rewrite Hc. apply HQ. eapply list_elem_of_lookup_2; eassumption.
Qed.

(** The Fisher-Yates loop stays inside the array, draws once per round and
    returns a rearrangement of its input. *)
Lemma shuffle_loop_spec {T} (i : nat) : forall (result : list T) w
    (Q : list T -> Entropy -> Prop),
  (i <= length result - 1)%nat ->
  (forall l' w', result ≡ₚ l' -> consumed i w w' -> Q l' w') ->
  post (shuffle_loop i result) w Q.
Proof.
  induction i as [| i IH]; intros result w Q Hi HQ; simpl.
  - apply post_ret, HQ; [reflexivity | apply consumed_0].
  - apply post_bind, post_randomInt; [lia |].
    intros j [_ Hj].
    assert (Hi' : (S i < length result)%nat) by lia.
    destruct (lookup_lt_is_Some_2 result (S i) Hi') as [ri Hri].
    destruct (lookup_lt_is_Some_2 result j ltac:(lia)) as [rj Hrj].
    assert (Hswap : swap result (S i) j ≡ₚ result).
    { unfold swap. rewrite Hrj, Hri.
      eapply Permutation_insert_swap; eassumption. }
    apply IH.
    + rewrite (Permutation_length Hswap). lia.
    + intros l' w' Hperm Hc. apply HQ.
      * rewrite <- Hperm. symmetry. exact Hswap.
      * replace (S i) with (1 + i)%nat by lia.
        eapply consumed_trans; [apply consumed_advance | exact Hc].
Qed.

Lemma post_secureShuffleArray {T} (array : list T) w
    (Q : list T -> Entropy -> Prop) :
  (forall l' w', array ≡ₚ l' -> consumed (length array - 1) w w' -> Q l' w') ->
  post (secureShuffleArray array) w Q.
Proof.
  intros HQ. unfold secureShuffleArray.
  apply shuffle_loop_spec; [lia | exact HQ].
Qed.

Lemma join_singletons cs : join (singletons cs) = cs.
Proof.
  unfold join, singletons. induction cs as [| c cs IH]; simpl; congruence.
Qed.

Lemma singletons_app a b : singletons (a ++ b) = singletons a ++ singletons b.
Proof. apply map_app. Qed.

Lemma post_fill_remaining (n : nat) (charset : jsstring) :
  forall (drawn : jsstring) w (Q : list jsstring -> Entropy -> Prop),
  charset <> [] ->
  (forall extra w',
      length extra = n -> Forall (fun c => c ∈ charset) extra ->
      consumed n w w' -> Q (singletons (drawn ++ extra)) w') ->
  post (fill_remaining n charset (singletons drawn)) w Q.
Proof.
  induction n as [| n IH]; intros drawn w Q Hne HQ; simpl.
  - apply post_ret. rewrite <- (app_nil_r drawn) at 1.
    apply HQ; [reflexivity | constructor | apply consumed_0].
  - apply post_bind, post_secureRandomChar; [exact Hne |].
    intros c Hc.
    change (singletons drawn ++ [[c]]) with (singletons drawn ++ singletons [c]).
    rewrite <- singletons_app. apply IH; [exact Hne |].
    intros extra w' Hlen Hall Hcons. rewrite <- app_assoc. apply HQ.
    + simpl. lia.
    + constructor; assumption.
    + replace (S n) with (1 + n)%nat by lia.
      eapply consumed_trans; [apply consumed_advance | exact Hcons].
Qed.

Lemma picked_length b chars p : picked b chars p -> length p = Nat.b2n b.
Proof. destruct b; simpl; [intros (c & -> & _) | intros ->]; reflexivity. Qed.

Lemma picked_in_pool b chars p :
  picked b chars p -> Forall (fun c => c ∈ when_on b chars) p.
Proof.
  destruct b; simpl; [intros (c & -> & Hc) | intros ->]; repeat constructor.
  exact Hc.
Qed.

Lemma uppercase_chars_nonempty o : uppercase_chars o <> [].
Proof. unfold uppercase_chars. destruct (exclude_on o); discriminate. Qed.

Lemma lowercase_chars_nonempty o : lowercase_chars o <> [].
Proof. unfold lowercase_chars. destruct (exclude_on o); discriminate. Qed.

Lemma numbers_chars_nonempty o : numbers_chars o <> [].
Proof. unfold numbers_chars. destruct (exclude_on o); discriminate. Qed.

Lemma symbols_chars_nonempty o : symbols_chars o <> [].
Proof. discriminate. Qed.

Lemma pool_nonempty o : any_class o = true -> pool o <> [].
Proof.
  unfold any_class, pool.
  pose proof (uppercase_chars_nonempty o). pose proof (lowercase_chars_nonempty o).
  pose proof (numbers_chars_nonempty o). pose proof (symbols_chars_nonempty o).
  destruct (uppercase_on o), (lowercase_on o), (numbers_on o), (symbols_on o);
    simpl; try discriminate; intros _;
    repeat match goal with
           | H : ?x <> [] |- _ => destruct x; [congruence | clear H]
           end; discriminate.
Qed.

(** One of the four [if (class) { ... }] blocks. *)
Lemma post_class_step (b : bool) (chars charset req : jsstring) w
    (Q : jsstring * list jsstring -> Entropy -> Prop) :
  chars <> [] ->
  (forall p w', picked b chars p -> consumed (Nat.b2n b) w w' ->
                Q (charset ++ when_on b chars, singletons (req ++ p)) w') ->
  post (if b then push_class chars (charset, singletons req)
        else ret (charset, singletons req)) w Q.
Proof.
  intros Hne HQ. destruct b; simpl in *.
  - apply post_bind, post_secureRandomChar; [exact Hne |].
    intros c Hc. apply post_ret.
    change (singletons req ++ [[c]]) with (singletons req ++ singletons [c]).
    rewrite <- singletons_app. apply HQ; [eauto | apply consumed_advance].
  - apply post_ret. rewrite <- (app_nil_r charset), <- (app_nil_r req) at 1.
    apply HQ; [reflexivity | apply consumed_0].
Qed.

(** What one call of [generatePassword] does when a class is enabled: the
    picks of the enabled classes, in class order, and the additional draws
    from the cumulative charset, rearranged. *)
Lemma generatePassword_run (o : GenerateOptions) (w : Entropy) :
  any_class o = true ->
  exists pw w' pu pl pn ps rest,
    generatePassword o w = (Ok pw, w')
    /\ (pu ++ pl ++ pn ++ ps) ++ rest ≡ₚ pw
    /\ picked (uppercase_on o) (uppercase_chars o) pu
    /\ picked (lowercase_on o) (lowercase_chars o) pl
    /\ picked (numbers_on o) (numbers_chars o) pn
    /\ picked (symbols_on o) (symbols_chars o) ps
    /\ Forall (fun c => c ∈ pool o) rest
    /\ Z.of_nat (length pw)
       = Z.max (requested_length o) (Z.of_nat (enabled_classes o))
    /\ consumed (2 * length pw - 1) w w'.
Proof.
  intros Hany.
  cut (post (generatePassword o) w (fun pw w' =>
         exists pu pl pn ps rest,
           (pu ++ pl ++ pn ++ ps) ++ rest ≡ₚ pw
           /\ picked (uppercase_on o) (uppercase_chars o) pu
           /\ picked (lowercase_on o) (lowercase_chars o) pl
           /\ picked (numbers_on o) (numbers_chars o) pn
           /\ picked (symbols_on o) (symbols_chars o) ps
           /\ Forall (fun c => c ∈ pool o) rest
           /\ Z.of_nat (length pw)
              = Z.max (requested_length o) (Z.of_nat (enabled_classes o))
           /\ consumed (2 * length pw - 1) w w')).
  { intros H. apply post_elim in H as (pw & w' & E & pu & pl & pn & ps & rest & H).
    exists pw, w', pu, pl, pn, ps, rest. split; [exact E | exact H]. }
  unfold generatePassword.
  fold (requested_length o) (uppercase_on o) (lowercase_on o) (numbers_on o)
       (symbols_on o) (exclude_on o).
  cbv zeta.
  fold (uppercase_chars o) (lowercase_chars o) (numbers_chars o) (symbols_chars o).
  apply post_bind.
  apply (post_class_step (uppercase_on o) (uppercase_chars o) [] []);
    [apply uppercase_chars_nonempty |].
  intros pu w1 Hpu Hw1. apply post_bind.
  apply post_class_step; [apply lowercase_chars_nonempty |].
  intros pl w2 Hpl Hw2. apply post_bind.
  apply post_class_step; [apply numbers_chars_nonempty |].
  intros pn w3 Hpn Hw3. apply post_bind.
  apply post_class_step; [apply symbols_chars_nonempty |].
  intros ps w4 Hps Hw4.
  assert (Hpool : (((([] ++ when_on (uppercase_on o) (uppercase_chars o))
                      ++ when_on (lowercase_on o) (lowercase_chars o))
                     ++ when_on (numbers_on o) (numbers_chars o))
                    ++ when_on (symbols_on o) (symbols_chars o)) = pool o).
  { unfold pool. rewrite app_nil_l, <- !app_assoc. reflexivity. }
  assert (Hreq : (((([] ++ pu) ++ pl) ++ pn) ++ ps) = pu ++ pl ++ pn ++ ps).
  { rewrite app_nil_l, <- !app_assoc. reflexivity. }
  rewrite Hpool, Hreq. clear Hpool Hreq.
  set (req := pu ++ pl ++ pn ++ ps).
  assert (Hlen : length (singletons req) = enabled_classes o).
  { unfold singletons, req, enabled_classes.
    rewrite length_map, !length_app.
    rewrite (picked_length _ _ _ Hpu), (picked_length _ _ _ Hpl),
      (picked_length _ _ _ Hpn), (picked_length _ _ _ Hps). lia. }
  assert (Hreqlen : length req = enabled_classes o).
  { rewrite <- Hlen. unfold singletons. rewrite length_map. reflexivity. }
  rewrite Hlen.
  pose proof (pool_nonempty o Hany) as Hne.
  destruct (Nat.eqb_spec (length (pool o)) 0) as [H0 | _].
  { destruct (pool o); [congruence | discriminate]. }
  apply post_bind.
  apply (post_fill_remaining _ (pool o) []); [exact Hne |].
  intros extra w5 Hextra Hall Hw5. simpl app.
  apply post_bind. rewrite <- singletons_app.
  apply post_secureShuffleArray.
  intros l' w6 Hperm Hw6. apply post_ret.
  symmetry in Hperm.
  apply Permutation_map_inv in Hperm as (pw & -> & Hperm).
  fold (singletons pw). rewrite join_singletons.
  assert (Hpw : length pw
                = (enabled_classes o
                   + Z.to_nat (requested_length o `max` Z.of_nat (enabled_classes o)
                               - Z.of_nat (enabled_classes o)))%nat).
  { rewrite <- (Permutation_length Hperm), length_app. lia. }
  exists pu, pl, pn, ps, extra.
  repeat split; try assumption.
  - lia.
  - destruct Hw1 as [T1 C1], Hw2 as [T2 C2], Hw3 as [T3 C3], Hw4 as [T4 C4],
      Hw5 as [T5 C5], Hw6 as [T6 C6]. congruence.
  - destruct Hw1 as [T1 C1], Hw2 as [T2 C2], Hw3 as [T3 C3], Hw4 as [T4 C4],
      Hw5 as [T5 C5], Hw6 as [T6 C6].
    unfold singletons in C6. rewrite length_map, length_app, Hextra, Hreqlen in C6.
    unfold enabled_classes in *. lia.
Qed.

Lemma Forall_of_forallb {A} (f : A -> bool) (l : list A) :
  forallb f l = true -> Forall (fun x => f x = true) l.
Proof.
  induction l as [| x l IH]; simpl; [constructor |].
  intros [Hx Hl]%andb_prop. constructor; auto.
Qed.

Lemma when_on_incl_pool o :
  forall c,
    c ∈ when_on (uppercase_on o) (uppercase_chars o)
    \/ c ∈ when_on (lowercase_on o) (lowercase_chars o)
    \/ c ∈ when_on (numbers_on o) (numbers_chars o)
    \/ c ∈ when_on (symbols_on o) (symbols_chars o) ->
    c ∈ pool o.
Proof.
  intros c H. unfold pool. rewrite !elem_of_app. tauto.
Qed.

(** Every character of a generated password comes from the cumulative
    charset. *)
Lemma run_in_pool o pu pl pn ps rest pw :
  (pu ++ pl ++ pn ++ ps) ++ rest ≡ₚ pw ->
  picked (uppercase_on o) (uppercase_chars o) pu ->
  picked (lowercase_on o) (lowercase_chars o) pl ->
  picked (numbers_on o) (numbers_chars o) pn ->
  picked (symbols_on o) (symbols_chars o) ps ->
  Forall (fun c => c ∈ pool o) rest ->
  Forall (fun c => c ∈ pool o) pw.
Proof.
  intros Hperm Hu Hl Hn Hs Hrest. rewrite <- Hperm.
  apply picked_in_pool in Hu, Hl, Hn, Hs.
  rewrite !Forall_app. repeat split; trivial;
    (eapply Forall_impl; [eassumption |]); intros c Hc;
    apply when_on_incl_pool; tauto.
Qed.

(** With the ambiguous glyphs excluded, none of them is left in the
    cumulative charset. *)
Lemma pool_unambiguous o :
  exclude_on o = true ->
  Forall (fun c => in_class CHARS.ambiguous c = false) (pool o).
Proof.
  intros He. unfold pool, uppercase_chars, lowercase_chars, numbers_chars,
    symbols_chars. rewrite He.
  eapply Forall_impl.
  - apply (Forall_of_forallb (fun c => negb (in_class CHARS.ambiguous c))).
    destruct (uppercase_on o), (lowercase_on o), (numbers_on o), (symbols_on o);
      vm_compute; reflexivity.
  - intros c Hc. apply negb_true_iff in Hc. exact Hc.
Qed.

(** With no class enabled the generator throws before any draw. *)
Lemma generatePassword_no_class o w :
  any_class o = false ->
  generatePassword o w
  = (Throw (Error "At least one character type must be enabled"), w).
Proof.
  unfold any_class. intros H.
  apply orb_false_elim in H as [H Hs]. apply orb_false_elim in H as [H Hn].
  apply orb_false_elim in H as [Hu Hl].
  unfold generatePassword.
  fold (uppercase_on o) (lowercase_on o) (numbers_on o) (symbols_on o).
  rewrite Hu, Hl, Hn, Hs. reflexivity.
Qed.

Lemma post_batch_loop (o : GenerateOptions) (n : nat) :
  forall (passwords : list jsstring) w (Q : list jsstring -> Entropy -> Prop),
  any_class o = true ->
  (forall ps w', length ps = n -> successive o w ps w' ->
                 Q (passwords ++ ps) w') ->
  post (batch_loop n o passwords) w Q.
Proof.
  induction n as [| n IH]; intros passwords w Q Hany HQ; simpl.
  - apply post_ret. rewrite <- (app_nil_r passwords).
    apply HQ; [reflexivity | constructor].
  - apply post_bind.
    destruct (generatePassword_run o w Hany)
      as (p & w1 & pu & pl & pn & ps & rest & E & _ & _ & _ & _ & _ & _ & Hlen & Hc).
    unfold post at 1. rewrite E.
    apply IH; [exact Hany |].
    intros ps' w' Hps Hsucc. rewrite <- app_assoc. apply HQ.
    + simpl. lia.
    + econstructor; [exact E | | exact Hsucc].
      destruct Hc as [_ Hc].
      assert (0 < enabled_classes o)%nat.
      { unfold any_class, enabled_classes in *.
        destruct (uppercase_on o), (lowercase_on o), (numbers_on o),
          (symbols_on o); simpl in *; try lia; discriminate. }
      lia.
Qed.

(** * The generator: length, coverage, validation, ambiguity *)

Lemma picked_on_elem chars p pw rest1 rest2 :
  picked true chars p -> rest1 ++ p ++ rest2 ≡ₚ pw ->
  exists c, c ∈ pw /\ c ∈ chars.
Proof.
  intros (c & -> & Hc) Hperm. exists c. split; [| exact Hc].
  rewrite <- Hperm, !elem_of_app. right. left. apply list_elem_of_here.
Qed.

(** C1. For every options record with at least one class enabled (absent
    fields taking their defaults), [generatePassword] returns a string whose
    length is the maximum of the requested length and the number of enabled
    classes, and which holds at least one character of the effective charset
    of every enabled class. *)
Theorem generatePassword_length_and_coverage (o : GenerateOptions) (w : Entropy) :
  any_class o = true ->
  exists pw w',
    generatePassword o w = (Ok pw, w')
    /\ Z.of_nat (length pw)
       = Z.max (requested_length o) (Z.of_nat (enabled_classes o))
    /\ (uppercase_on o = true -> exists c, c ∈ pw /\ c ∈ uppercase_chars o)
    /\ (lowercase_on o = true -> exists c, c ∈ pw /\ c ∈ lowercase_chars o)
    /\ (numbers_on o = true -> exists c, c ∈ pw /\ c ∈ numbers_chars o)
    /\ (symbols_on o = true -> exists c, c ∈ pw /\ c ∈ symbols_chars o).
Proof.
  intros Hany.
  destruct (generatePassword_run o w Hany)
    as (pw & w' & pu & pl & pn & ps & rest & E & Hperm & Hu & Hl & Hn & Hs
        & _ & Hlen & _).
  exists pw, w'. split; [exact E |]. split; [exact Hlen |].
  repeat split; intros Hon.
  - rewrite Hon in Hu. apply (picked_on_elem _ pu pw [] (pl ++ pn ++ ps ++ rest) Hu).
    rewrite <- Hperm, <- !app_assoc. reflexivity.
  - rewrite Hon in Hl. apply (picked_on_elem _ pl pw pu (pn ++ ps ++ rest) Hl).
    rewrite <- Hperm, <- !app_assoc. reflexivity.
  - rewrite Hon in Hn. apply (picked_on_elem _ pn pw (pu ++ pl) (ps ++ rest) Hn).
    rewrite <- Hperm, <- !app_assoc. reflexivity.
  - rewrite Hon in Hs. apply (picked_on_elem _ ps pw (pu ++ pl ++ pn) rest Hs).
    rewrite <- Hperm, <- !app_assoc. reflexivity.
Qed.

Lemma generatePassword_length_and_coverage_witness :
  exists pw w',
    generatePassword default_options sample_entropy = (Ok pw, w')
    /\ Z.of_nat (length pw)
       = Z.max (requested_length default_options)
               (Z.of_nat (enabled_classes default_options))
    /\ (uppercase_on default_options = true ->
        exists c, c ∈ pw /\ c ∈ uppercase_chars default_options)
    /\ (lowercase_on default_options = true ->
        exists c, c ∈ pw /\ c ∈ lowercase_chars default_options)
    /\ (numbers_on default_options = true ->
        exists c, c ∈ pw /\ c ∈ numbers_chars default_options)
    /\ (symbols_on default_options = true ->
        exists c, c ∈ pw /\ c ∈ symbols_chars default_options).
Proof.
  apply (generatePassword_length_and_coverage default_options sample_entropy).
  reflexivity.
Defined.

(** C2. When all four class flags are false, [generatePassword] throws the
    error "At least one character type must be enabled": no password is
    produced, and no randomness is drawn. *)
Theorem generatePassword_no_class_fails (o : GenerateOptions) (w : Entropy) :
  uppercase_on o = false -> lowercase_on o = false ->
  numbers_on o = false -> symbols_on o = false ->
  generatePassword o w
  = (Throw (Error "At least one character type must be enabled"), w)
  /\ forall pw w', generatePassword o w <> (Ok pw, w').
Proof.
  intros Hu Hl Hn Hs.
  assert (E : generatePassword o w
              = (Throw (Error "At least one character type must be enabled"), w)).
  { apply generatePassword_no_class. unfold any_class.
    rewrite Hu, Hl, Hn, Hs. reflexivity. }
  split; [exact E |]. intros pw w'. rewrite E. discriminate.
Qed.

Lemma generatePassword_no_class_fails_witness :
  generatePassword no_class_options sample_entropy
  = (Throw (Error "At least one character type must be enabled"), sample_entropy)
  /\ forall pw w',
       generatePassword no_class_options sample_entropy <> (Ok pw, w').
Proof.
  apply (generatePassword_no_class_fails no_class_options sample_entropy);
    reflexivity.
Defined.

(** C5. With [excludeAmbiguous] set, [generatePassword] returns a password
    whenever a class is enabled, and a password it returns never holds
    [I], [O], [l], [0] or [1]. *)
Theorem generatePassword_excludes_ambiguous (o : GenerateOptions) (w : Entropy) :
  exclude_on o = true ->
  (any_class o = true -> exists pw w', generatePassword o w = (Ok pw, w'))
  /\ (forall pw w',
        generatePassword o w = (Ok pw, w') ->
        forall c, c ∈ pw ->
          c <> cu "I" /\ c <> cu "O" /\ c <> cu "l" /\ c <> cu "0" /\ c <> cu "1").
Proof.
  intros He. split.
  - intros Hany.
    destruct (generatePassword_run o w Hany) as (pw & w' & _ & _ & _ & _ & _ & E & _).
    eauto.
  - intros pw w' E c Hc.
    destruct (any_class o) eqn:Hany.
    + destruct (generatePassword_run o w Hany)
        as (pw0 & w0 & pu & pl & pn & ps & rest & E0 & Hperm & Hu & Hl & Hn & Hs
            & Hrest & _).
      rewrite E in E0. injection E0 as <- <-.
      pose proof (run_in_pool o pu pl pn ps rest pw Hperm Hu Hl Hn Hs Hrest) as Hpool.
      rewrite Forall_forall in Hpool. specialize (Hpool c Hc).
      pose proof (pool_unambiguous o He) as Hamb.
      rewrite Forall_forall in Hamb. specialize (Hamb c Hpool).
      repeat split; intros ->; vm_compute in Hamb; discriminate.
    + rewrite (generatePassword_no_class o w Hany) in E. discriminate.
Qed.

Lemma generatePassword_excludes_ambiguous_witness :
  (any_class unambiguous_options = true ->
   exists pw w', generatePassword unambiguous_options sample_entropy = (Ok pw, w'))
  /\ (forall pw w',
        generatePassword unambiguous_options sample_entropy = (Ok pw, w') ->
        forall c, c ∈ pw ->
          c <> cu "I" /\ c <> cu "O" /\ c <> cu "l" /\ c <> cu "0" /\ c <> cu "1").
Proof.
  apply (generatePassword_excludes_ambiguous unambiguous_options sample_entropy).
  reflexivity.
Defined.

(** * The batch generator *)

(** C4 fails for an options record with no class enabled: the first call of
    the generator throws, so the batch returns no sequence at all. *)
Lemma generateBatch_no_class_counterexample :
  generateBatch 1 no_class_options sample_entropy
  = (Throw (Error "At least one character type must be enabled"), sample_entropy)
  /\ ~ (forall (o : GenerateOptions) (count : Z) (w : Entropy),
          1 <= count ->
          exists pws w',
            generateBatch count o w = (Ok pws, w')
            /\ Z.of_nat (length pws) = Z.min count 100).
Proof.
  split; [reflexivity |].
  intros H.
  destruct (H no_class_options 1 sample_entropy ltac:(lia)) as (pws & w' & E & _).
  vm_compute in E. discriminate.
Qed.

(** C4, amended. For every options record with at least one class enabled
    and every count of at least 1, [generateBatch] returns, without an
    error, exactly [min count 100] passwords in the order of generation:
    the passwords of that many successive calls of [generatePassword], each
    call drawing fresh entropy after the previous one.  For a count of 150
    these are exactly 100 passwords. *)
Theorem generateBatch_clamps (o : GenerateOptions) (count : Z) (w : Entropy) :
  any_class o = true -> 1 <= count ->
  exists pws w',
    generateBatch count o w = (Ok pws, w')
    /\ Z.of_nat (length pws) = Z.min count 100
    /\ successive o w pws w'
    /\ (count = 150 -> length pws = 100%nat).
Proof.
  intros Hany Hcount.
  assert (P : post (generateBatch count o) w (fun pws w' =>
                Z.of_nat (length pws) = Z.min count 100
                /\ successive o w pws w'
                /\ (count = 150 -> length pws = 100%nat))).
  { unfold generateBatch. cbv zeta.
    apply post_batch_loop; [exact Hany |].
    intros ps w' Hlen Hsucc. simpl app.
    split; [lia |]. split; [exact Hsucc |]. intros ->. rewrite Hlen. reflexivity. }
  apply post_elim in P as (pws & w' & E & HP). eauto.
Qed.

Lemma generateBatch_clamps_witness :
  exists pws w',
    generateBatch 150 default_options sample_entropy = (Ok pws, w')
    /\ Z.of_nat (length pws) = Z.min 150 100
    /\ successive default_options sample_entropy pws w'
    /\ (150 = 150 -> length pws = 100%nat).
Proof.
  apply (generateBatch_clamps default_options 150 sample_entropy);
    [reflexivity | lia].
Defined.

(** * Real-number facts behind the entropy and crack-time estimates *)

Section RealFacts.
Local Open Scope R_scope.

Lemma Math_round_spec (x : R) (z : Z) :
  IZR z - / 2 <= x < IZR z + / 2 -> Math_round x = z.
Proof.
  intros [Hlo Hhi]. unfold Math_round. symmetry.
  apply Int_part_spec. split; lra.
Qed.

Lemma Math_round_bounds (x : R) :
  IZR (Math_round x) - / 2 <= x < IZR (Math_round x) + / 2.
Proof.
  unfold Math_round. destruct (base_Int_part (x + / 2)) as [H1 H2].
  split; lra.
Qed.

Lemma Math_round_nonneg (x : R) : 0 <= x -> (0 <= Math_round x)%Z.
Proof.
  intros Hx. destruct (Math_round_bounds x) as [_ Hhi].
  assert (H : -1 < IZR (Math_round x)) by lra.
  apply lt_IZR in H. lia.
Qed.

Lemma ln_2_pos : 0 < ln 2.
Proof. rewrite <- ln_1. apply ln_increasing; lra. Qed.

Lemma ln_nonneg (x : R) : 1 <= x -> 0 <= ln x.
Proof.
  intros [Hlt | <-].
  - left. rewrite <- ln_1. apply ln_increasing; lra.
  - rewrite ln_1. lra.
Qed.

Lemma log2_nonneg (x : R) : 1 <= x -> 0 <= log2 x.
Proof.
  intros Hx. unfold log2. apply Rmult_le_pos; [apply ln_nonneg, Hx |].
  left. apply Rinv_0_lt_compat, ln_2_pos.
Qed.

Lemma log2_1 : log2 1 = 0.
Proof. unfold log2. rewrite ln_1. lra. Qed.

Lemma log2_pow2 (n : nat) : log2 (2 ^ n) = INR n.
Proof.
  unfold log2. rewrite ln_pow by lra. field. apply Rgt_not_eq, ln_2_pos.
Qed.

(** [n * log2 a] against an integer [k], decided on integers:
    [2^k] against [a^n]. *)
Lemma scaled_log2_ln (a : Z) (n : nat) :
  (0 < a)%Z ->
  IZR (Z.of_nat n) * log2 (IZR a) * ln 2 = ln (IZR (a ^ Z.of_nat n)).
Proof.
  intros Ha. rewrite <- pow_IZR, ln_pow by (apply IZR_lt; exact Ha).
  rewrite INR_IZR_INZ. unfold log2. field. apply Rgt_not_eq, ln_2_pos.
Qed.

Lemma pow2_ln (k : nat) : IZR (Z.of_nat k) * ln 2 = ln (IZR (2 ^ Z.of_nat k)).
Proof.
  rewrite <- pow_IZR, ln_pow by lra. rewrite INR_IZR_INZ. reflexivity.
Qed.

Lemma scaled_log2_lt (a : Z) (n k : nat) :
  (0 < a)%Z -> (a ^ Z.of_nat n < 2 ^ Z.of_nat k)%Z ->
  IZR (Z.of_nat n) * log2 (IZR a) < IZR (Z.of_nat k).
Proof.
  intros Ha Hlt.
  apply (Rmult_lt_reg_r (ln 2)); [apply ln_2_pos |].
  rewrite scaled_log2_ln, pow2_ln by exact Ha.
  apply ln_increasing; [| apply IZR_lt; exact Hlt].
  apply IZR_lt. apply Z.pow_pos_nonneg; lia.
Qed.

Lemma scaled_log2_ge (a : Z) (n k : nat) :
  (0 < a)%Z -> (2 ^ Z.of_nat k <= a ^ Z.of_nat n)%Z ->
  IZR (Z.of_nat k) <= IZR (Z.of_nat n) * log2 (IZR a).
Proof.
  intros Ha Hle.
  apply (Rmult_le_reg_r (ln 2)); [apply ln_2_pos |].
  rewrite scaled_log2_ln, pow2_ln by exact Ha.
  apply Z.le_lteq in Hle as [Hlt | ->]; [| lra].
  left. apply ln_increasing; [| apply IZR_lt; exact Hlt].
  apply IZR_lt. apply Z.pow_pos_nonneg; lia.
Qed.

Lemma scaled_log2_neq (a : Z) (n k : nat) :
  (0 < a)%Z -> (a ^ Z.of_nat n <> 2 ^ Z.of_nat k)%Z ->
  IZR (Z.of_nat n) * log2 (IZR a) <> IZR (Z.of_nat k).
Proof.
  intros Ha Hne Heq. apply Hne.
  apply eq_IZR, ln_inv.
  - apply IZR_lt. apply Z.pow_pos_nonneg; lia.
  - apply IZR_lt. apply Z.pow_pos_nonneg; lia.
  - rewrite <- scaled_log2_ln, <- pow2_ln by exact Ha. rewrite Heq. reflexivity.
Qed.

Lemma Rpower_2_nat (n : nat) : Rpower 2 (IZR (Z.of_nat n)) = IZR (2 ^ Z.of_nat n).
Proof.
  rewrite <- INR_IZR_INZ, Rpower_pow by lra. apply pow_IZR.
Qed.
End RealFacts.

(** * The analyzer *)

Lemma regex_test_class (cls : N -> bool) (pw : list N) :
  regex_test (class_here cls) pw = existsb cls pw.
Proof.
  induction pw as [| c pw IH]; simpl; [reflexivity |]. rewrite IH. reflexivity.
Qed.

Lemma charsetSize_of_alphabet (pw : list N) :
  charsetSize_of (regex_test (class_here is_lower) pw)
                 (regex_test (class_here is_upper) pw)
                 (regex_test (class_here is_digit) pw)
                 (regex_test (class_here is_symbol) pw)
  = alphabet_size pw.
Proof.
  rewrite !regex_test_class. unfold charsetSize_of, alphabet_size.
  destruct (existsb is_lower pw), (existsb is_upper pw),
    (existsb is_digit pw), (existsb is_symbol pw); reflexivity.
Qed.

Lemma alphabet_size_cases (pw : list N) :
  alphabet_size pw = 0 \/ 10 <= alphabet_size pw.
Proof.
  unfold alphabet_size.
  destruct (existsb is_lower pw), (existsb is_upper pw),
    (existsb is_digit pw), (existsb is_symbol pw); simpl; lia.
Qed.

(** The fields of the result, one by one. *)
Lemma analyzeStrength_password (pw : list N) :
  password (analyzeStrength pw)
  = firstn 3 pw ++ repeat (cu "*") (length pw - 3).
Proof.
  unfold analyzeStrength. cbv zeta. cbn [password]. f_equal. f_equal. lia.
Qed.

Lemma analyzeStrength_entropy (pw : list N) :
  entropy (analyzeStrength pw)
  = (IZR (Math_round (entropy_bits pw * 100)) / 100)%R.
Proof.
  unfold analyzeStrength. cbv zeta. cbn [entropy].
  rewrite charsetSize_of_alphabet. reflexivity.
Qed.

Lemma analyzeStrength_crackTime (pw : list N) :
  crackTime (analyzeStrength pw) = estimateCrackTime (entropy_bits pw).
Proof.
  unfold analyzeStrength. cbv zeta. cbn [crackTime].
  rewrite charsetSize_of_alphabet. reflexivity.
Qed.

Lemma entropy_bits_nonneg (pw : list N) : (0 <= entropy_bits pw)%R.
Proof.
  unfold entropy_bits, raw_entropy.
  apply Rmult_le_pos; [apply IZR_le; lia |].
  apply log2_nonneg. apply IZR_le.
  destruct (alphabet_size_cases pw) as [-> | H]; [simpl; lia |].
  destruct (Z.eqb_spec (alphabet_size pw) 0); lia.
Qed.

Lemma lookup_repeat {A} (x : A) (n i : nat) :
  (i < n)%nat -> repeat x n !! i = Some x.
Proof.
  revert i. induction n as [| n IH]; intros [| i] Hi; simpl; try lia; trivial.
  apply IH. lia.
Qed.

Lemma pushed_nonempty {A} (l : list A) (x : A) :
  (if (length l =? 0)%nat then l ++ [x] else l) <> [].
Proof. destruct l; simpl; discriminate. Qed.

(** C6. The masked password of every analysis keeps the first three
    characters of the input and holds one [*] for each character after
    them: it has the length of the input, agrees with it below index 3 and
    reads [*] from index 3 on; an input of at most three characters comes
    back unchanged, and "abcdef" gives "abc***". *)
Theorem analyzeStrength_mask (pw : list N) :
  let masked := password (analyzeStrength pw) in
  masked = firstn 3 pw ++ repeat (cu "*") (length pw - 3)
  /\ length masked = length pw
  /\ (forall i, (i < 3)%nat -> masked !! i = pw !! i)
  /\ (forall i, (3 <= i < length pw)%nat -> masked !! i = Some (cu "*"))
  /\ ((length pw <= 3)%nat -> masked = pw)
  /\ password (analyzeStrength (js "abcdef")) = js "abc***".
Proof.
  cbv zeta. rewrite analyzeStrength_password.
  assert (Hlen : length (firstn 3 pw) = Nat.min 3 (length pw))
    by apply length_firstn.
  split; [reflexivity |]. split; [| split; [| split; [| split]]].
  - rewrite length_app, Hlen, repeat_length. lia.
  - intros i Hi. destruct (Nat.lt_ge_cases i (length pw)) as [Hin | Hout].
    + rewrite lookup_app_l by lia. apply lookup_take_lt. exact Hi.
    + rewrite (lookup_ge_None_2 pw i Hout). apply lookup_ge_None_2.
      rewrite length_app, Hlen, repeat_length. lia.
  - intros i [Hi1 Hi2]. rewrite lookup_app_r by lia.
    rewrite Hlen. apply lookup_repeat. lia.
  - intros Hshort. replace (length pw - 3)%nat with 0%nat by lia.
    simpl. rewrite app_nil_r. apply firstn_all2. lia.
  - rewrite analyzeStrength_password. reflexivity.
Qed.

Lemma analyzeStrength_mask_witness :
  password (analyzeStrength (js "ab")) = js "ab".
Proof.
  apply (analyzeStrength_mask (js "ab")). vm_compute. lia.
Defined.

(** C10. For every input string, the empty one and those with no character
    of the four classes included, [analyzeStrength] is total: it yields a
    result whose score is an integer of [0, 10], whose entropy is not
    negative and whose feedback is not empty; as a call it returns normally
    and leaves the entropy source untouched. *)
Theorem analyzeStrength_safe (pw : list N) :
  0 <= score (analyzeStrength pw) <= 10
  /\ (0 <= entropy (analyzeStrength pw))%R
  /\ feedback (analyzeStrength pw) <> []
  /\ forall w, analyze pw w = (Ok (analyzeStrength pw), w).
Proof.
  split; [| split; [| split]].
  - unfold analyzeStrength. cbv zeta. cbn [score]. lia.
  - rewrite analyzeStrength_entropy.
    apply Rmult_le_pos; [| lra].
    apply IZR_le, Math_round_nonneg.
    apply Rmult_le_pos; [apply entropy_bits_nonneg | lra].
  - unfold analyzeStrength. cbv zeta. cbn [feedback]. apply pushed_nonempty.
  - reflexivity.
Qed.

Section EntropyFacts.
Local Open Scope R_scope.

Lemma scaled_log2_lt_Z (a n k : Z) :
  (0 < a)%Z -> (0 <= n)%Z -> (0 <= k)%Z -> (a ^ n < 2 ^ k)%Z ->
  IZR n * log2 (IZR a) < IZR k.
Proof.
  intros Ha Hn Hk H.
  pose proof (scaled_log2_lt a (Z.to_nat n) (Z.to_nat k) Ha) as P.
  rewrite !Z2Nat.id in P by assumption. exact (P H).
Qed.

Lemma scaled_log2_ge_Z (a n k : Z) :
  (0 < a)%Z -> (0 <= n)%Z -> (0 <= k)%Z -> (2 ^ k <= a ^ n)%Z ->
  IZR k <= IZR n * log2 (IZR a).
Proof.
  intros Ha Hn Hk H.
  pose proof (scaled_log2_ge a (Z.to_nat n) (Z.to_nat k) Ha) as P.
  rewrite !Z2Nat.id in P by assumption. exact (P H).
Qed.

Lemma scaled_log2_neq_Z (a n k : Z) :
  (0 < a)%Z -> (0 <= n)%Z -> (0 <= k)%Z -> (a ^ n <> 2 ^ k)%Z ->
  IZR n * log2 (IZR a) <> IZR k.
Proof.
  intros Ha Hn Hk H.
  pose proof (scaled_log2_neq a (Z.to_nat n) (Z.to_nat k) Ha) as P.
  rewrite !Z2Nat.id in P by assumption. exact (P H).
Qed.

Lemma entropy_bits_Troubador :
  entropy_bits (js "Tr0ub4dor&3xyz") = 14 * log2 94.
Proof.
  unfold entropy_bits, raw_entropy.
  replace (alphabet_size (js "Tr0ub4dor&3xyz")) with 94%Z
    by (vm_compute; reflexivity).
  reflexivity.
Qed.

(** log2 94 lies between 485/74 and 780/119, so that 14 * log2 94 lies
    strictly between 91.755 and 91.765. *)
Lemma log2_94_bounds : 485 <= 74 * log2 94 /\ 119 * log2 94 < 780.
Proof.
split.
- apply (scaled_log2_ge_Z 94 74 485); [lia | lia | lia |].
  apply Z.leb_le. vm_compute. reflexivity.
- apply (scaled_log2_lt_Z 94 119 780); [lia | lia | lia |].
  apply Z.ltb_lt. vm_compute. reflexivity.
Qed.

Lemma entropy_Troubador :
  entropy (analyzeStrength (js "Tr0ub4dor&3xyz")) = 9176 / 100.
Proof.
  rewrite analyzeStrength_entropy, entropy_bits_Troubador.
  rewrite (Math_round_spec _ 9176); [reflexivity |].
  pose proof log2_94_bounds. lra.
Qed.
End EntropyFacts.

(** C7 fails on the example the claim names: the result carries the entropy
    rounded to two decimals, 91.76, and 14 * log2 94 is not that number. *)
Lemma analyzeStrength_entropy_counterexample :
  entropy (analyzeStrength (js "Tr0ub4dor&3xyz")) = (9176 / 100)%R
  /\ alphabet_size (js "Tr0ub4dor&3xyz") = 94
  /\ length (js "Tr0ub4dor&3xyz") = 14%nat
  /\ entropy (analyzeStrength (js "Tr0ub4dor&3xyz")) <> (14 * log2 94)%R.
Proof.
  split; [apply entropy_Troubador |].
  split; [vm_compute; reflexivity |]. split; [reflexivity |].
  rewrite entropy_Troubador. intros H.
  apply (scaled_log2_neq_Z 94 175 1147); [lia | lia | lia | |].
  - apply Z.eqb_neq. vm_compute. reflexivity.
  - lra.
Qed.

(** C7, amended. For every password, the entropy of the result is
    length * log2 S rounded to two decimals, where S adds 26 for a lowercase
    letter, 26 for an uppercase letter, 10 for a digit and 32 for a
    character of the symbol set: it is a whole number of hundredths within
    0.0051 of length * log2 S (0.005 for the rounding; the rest leaves room
    for the rounding errors of the source's double arithmetic, which can
    tip a tie on inputs of millions of characters), and it is 0 when S is
    0.  For a password of at most 1000 characters, the limit of the route,
    it is exactly the nearest hundredth, halves upwards.  For
    "Tr0ub4dor&3xyz" it is 91.76, the rounding of 14 * log2 94. *)
Theorem analyzeStrength_entropy_rounded (pw : list N) :
  let S := alphabet_size pw in
  let exact := (IZR (Z.of_nat (length pw)) * log2 (IZR S))%R in
  (S = 0 -> entropy (analyzeStrength pw) = 0%R)
  /\ (S <> 0 ->
      (exists k : Z, entropy (analyzeStrength pw) = (IZR k / 100)%R)
      /\ (Rabs (entropy (analyzeStrength pw) - exact) <= 51 / 10000)%R)
  /\ (S <> 0 -> (length pw <= 1000)%nat ->
      entropy (analyzeStrength pw) = (IZR (Math_round (exact * 100)) / 100)%R)
  /\ entropy (analyzeStrength (js "Tr0ub4dor&3xyz")) = (9176 / 100)%R
  /\ (9176 / 100 = IZR (Math_round (14 * log2 94 * 100)) / 100)%R.
Proof.
  cbv zeta.
  assert (E : alphabet_size pw <> 0 ->
              entropy_bits pw
              = (IZR (Z.of_nat (length pw)) * log2 (IZR (alphabet_size pw)))%R).
  { intros HS. unfold entropy_bits, raw_entropy.
    destruct (Z.eqb_spec (alphabet_size pw) 0); [contradiction | reflexivity]. }
  split; [| split; [| split; [| split]]].
  - intros HS. rewrite analyzeStrength_entropy.
    unfold entropy_bits, raw_entropy. rewrite HS. simpl Z.eqb. cbv iota.
    rewrite log2_1, (Math_round_spec _ 0); lra.
  - intros HS. rewrite analyzeStrength_entropy, (E HS). split.
    + eexists. reflexivity.
    + match goal with |- context [Math_round ?x] =>
        pose proof (Math_round_bounds x) as [Hlo Hhi] end.
      apply Rabs_le. split; lra.
  - intros HS _. rewrite analyzeStrength_entropy, (E HS). reflexivity.
  - apply entropy_Troubador.
  - rewrite <- entropy_bits_Troubador, <- analyzeStrength_entropy.
    symmetry. apply entropy_Troubador.
Qed.

Lemma analyzeStrength_entropy_rounded_witness :
  entropy (analyzeStrength (js "")) = 0%R
  /\ (Rabs (entropy (analyzeStrength (js "a"))
            - IZR (Z.of_nat (length (js "a")))
              * log2 (IZR (alphabet_size (js "a")))) <= 51 / 10000)%R
  /\ entropy (analyzeStrength (js "a"))
     = (IZR (Math_round (IZR (Z.of_nat (length (js "a")))
                         * log2 (IZR (alphabet_size (js "a"))) * 100)) / 100)%R.
Proof.
  split; [| split].
  - apply (analyzeStrength_entropy_rounded (js "")). reflexivity.
  - apply (analyzeStrength_entropy_rounded (js "a")). vm_compute. discriminate.
  - apply (analyzeStrength_entropy_rounded (js "a")).
    + vm_compute. discriminate.
    + vm_compute. lia.
Defined.

(** * Crack time *)

Section CrackTimeFacts.
Local Open Scope R_scope.

Lemma entropy_bits_empty : entropy_bits (js "") = 0.
Proof.
  unfold entropy_bits, raw_entropy.
  change (length (js "")) with 0%nat. simpl Z.of_nat. apply Rmult_0_l.
Qed.

Lemma crack_seconds_empty : crack_seconds (entropy_bits (js "")) < 1.
Proof.
  rewrite entropy_bits_empty. unfold crack_seconds, guessesPerSecond.
  rewrite Rpower_O by lra. lra.
Qed.

Lemma entropy_bits_nine_symbols : entropy_bits (js "!@#$%^&*(") = 45.
Proof.
  unfold entropy_bits, raw_entropy.
  replace (alphabet_size (js "!@#$%^&*(")) with 32%Z
    by (vm_compute; reflexivity).
  replace (length (js "!@#$%^&*(")) with 9%nat by reflexivity.
  simpl Z.eqb. cbv iota. change (Z.of_nat 9) with 9%Z.
  change 32 with (IZR (2 ^ Z.of_nat 5)). rewrite <- pow_IZR, log2_pow2.
  simpl INR. lra.
Qed.

Lemma crack_seconds_nine_symbols :
  crack_seconds (entropy_bits (js "!@#$%^&*("))
  = 35184372088832 / 10000000000 / 2.
Proof.
  rewrite entropy_bits_nine_symbols. unfold crack_seconds, guessesPerSecond.
  change 45 with (IZR (Z.of_nat 45)). rewrite Rpower_2_nat.
  replace (2 ^ Z.of_nat 45)%Z with 35184372088832%Z
    by (vm_compute; reflexivity).
  reflexivity.
Qed.
End CrackTimeFacts.

(** C8. For every password, the crack time of the result is
    [estimateCrackTime] of the entropy estimate, whose average-case seconds
    are 2^entropy / 10,000,000,000 / 2; the buckets are taken upwards with
    strict tests: below 1 second the answer is "instant", from 1 up to 60
    a seconds string, from 60 up to 3600 a minutes string. *)
Theorem crackTime_buckets (pw : list N) :
  let seconds := (Rpower 2 (entropy_bits pw) / 10000000000 / 2)%R in
  crackTime (analyzeStrength pw) = estimateCrackTime (entropy_bits pw)
  /\ crack_seconds (entropy_bits pw) = seconds
  /\ ((seconds < 1)%R -> crackTime (analyzeStrength pw) = js "instant")
  /\ ((1 <= seconds < 60)%R ->
      crackTime (analyzeStrength pw)
      = show_int (Math_round seconds) ++ js " seconds")
  /\ ((60 <= seconds < 3600)%R ->
      crackTime (analyzeStrength pw)
      = show_int (Math_round (seconds / 60)) ++ js " minutes").
Proof.
  cbv zeta. rewrite analyzeStrength_crackTime.
  split; [reflexivity |]. split; [reflexivity |].
  unfold estimateCrackTime.
  change (crack_seconds (entropy_bits pw))
    with (Rpower 2 (entropy_bits pw) / 10000000000 / 2)%R.
  set (seconds := (Rpower 2 (entropy_bits pw) / 10000000000 / 2)%R).
  split; [| split].
  - intros H. destruct (Rlt_dec seconds 1); [reflexivity | lra].
  - intros [H1 H2]. destruct (Rlt_dec seconds 1); [lra |].
    destruct (Rlt_dec seconds 60); [reflexivity | lra].
  - intros [H1 H2]. destruct (Rlt_dec seconds 1); [lra |].
    destruct (Rlt_dec seconds 60); [lra |].
    destruct (Rlt_dec seconds 3600); [reflexivity | lra].
Qed.

Lemma crackTime_buckets_witness :
  crackTime (analyzeStrength (js "")) = js "instant"
  /\ crackTime (analyzeStrength (js "!@#$%^&*("))
     = show_int (Math_round (Rpower 2 (entropy_bits (js "!@#$%^&*("))
                             / 10000000000 / 2 / 60))
         ++ js " minutes".
Proof.
  split.
  - apply (crackTime_buckets (js "")). apply crack_seconds_empty.
  - apply (crackTime_buckets (js "!@#$%^&*(")).
    change (Rpower 2 (entropy_bits (js "!@#$%^&*(")) / 10000000000 / 2)%R
      with (crack_seconds (entropy_bits (js "!@#$%^&*("))).
    rewrite crack_seconds_nine_symbols. lra.
Defined.

(** Nine symbols are worth 45 bits, about 1759 seconds: "29 minutes". *)
Lemma crackTime_nine_symbols :
  crackTime (analyzeStrength (js "!@#$%^&*(")) = js "29 minutes".
Proof.
  rewrite analyzeStrength_crackTime. unfold estimateCrackTime.
  rewrite crack_seconds_nine_symbols.
  destruct (Rlt_dec _ 1); [lra |]. destruct (Rlt_dec _ 60); [lra |].
  destruct (Rlt_dec _ 3600); [| lra].
  rewrite (Math_round_spec _ 29) by lra. reflexivity.
Qed.

(** * The guard of the [POST /strength] handler *)

(** C3 fails for the empty string: the core has no guard and returns a
    result for it, with score 0 and five pieces of advice. *)
Lemma analyzeStrength_empty_counterexample :
  analyze (js "") sample_entropy = (Ok (analyzeStrength (js "")), sample_entropy)
  /\ (forall e, fst (analyze (js "") sample_entropy) <> Throw e)
  /\ score (analyzeStrength (js "")) = 0
  /\ level (analyzeStrength (js "")) = very_weak
  /\ password (analyzeStrength (js "")) = js ""
  /\ feedback (analyzeStrength (js ""))
     = [ js "Password is too short (minimum 8 characters)";
         js "Add lowercase letters"; js "Add uppercase letters";
         js "Add numbers"; js "Add special characters" ].
Proof.
  split; [reflexivity |]. split; [intros e; discriminate |].
  repeat split.
Qed.

(** C3, amended. It is the [POST /strength] handler that rejects a missing,
    non-string or empty password: it answers 400 with "Password is
    required" and never calls the core.  A non-empty string of at most 1000
    characters is handed to [analyzeStrength], which itself validates
    nothing and returns a result for every string. *)
Theorem strength_handler_requires_password (body : gmap string JsValue) :
  ((forall s, body !! "password"%string = Some (JString s) -> s = []) ->
   strength_try body = Throw (Error "Password is required")
   /\ strength_handler body = Json400 "Password is required")
  /\ (forall s, body !! "password"%string = Some (JString s) ->
      s <> [] -> (length s <= 1000)%nat ->
      strength_handler body = Json200 (analyzeStrength s))
  /\ (forall s w, analyze s w = (Ok (analyzeStrength s), w)).
Proof.
  split; [| split].
  - intros H.
    assert (E : strength_try body = Throw (Error "Password is required")).
    { unfold strength_try.
      destruct (body !! "password"%string) as [[| | b | q | s | |] |] eqn:Hb;
        simpl; try reflexivity.
      - destruct b; reflexivity.
      - destruct (Qeq_bool q 0); reflexivity.
      - rewrite (H s eq_refl). reflexivity. }
    split; [exact E |]. unfold strength_handler. rewrite E. reflexivity.
  - intros s Hb Hne Hlen. unfold strength_handler, strength_try. rewrite Hb.
    destruct s as [| c s]; [congruence |]. simpl default.
    change (typeof (JString (c :: s))) with "string"%string.
    rewrite String.eqb_refl.
    change (truthy (JString (c :: s))) with true. cbn [negb orb].
    destruct (Nat.ltb_spec 1000 (length (c :: s))); [lia | reflexivity].
  - reflexivity.
Qed.

Lemma strength_handler_requires_password_witness :
  (strength_try {[ "password"%string := JString [] ]}
   = Throw (Error "Password is required")
   /\ strength_handler {[ "password"%string := JString [] ]}
      = Json400 "Password is required")
  /\ strength_handler {[ "password"%string := JString (js "abcdef") ]}
     = Json200 (analyzeStrength (js "abcdef")).
Proof.
  split.
  - apply (strength_handler_requires_password {[ "password"%string := JString [] ]}).
    intros s H. vm_compute in H. congruence.
  - apply (strength_handler_requires_password
             {[ "password"%string := JString (js "abcdef") ]} ).
    + vm_compute. reflexivity.
    + discriminate.
    + vm_compute. lia.
Defined.


(** * Further properties of the generator *)

(** X1. [secureShuffleArray] returns, for every array and every state of
    the entropy source, a rearrangement of its input: the same elements
    with the same multiplicities, hence the same length; it draws once per
    element but the first. *)
Theorem secureShuffleArray_permutation {T} (array : list T) (w : Entropy) :
  exists result w',
    secureShuffleArray array w = (Ok result, w')
    /\ array ≡ₚ result
    /\ length result = length array
    /\ consumed (length array - 1) w w'.
Proof.
  assert (P : post (secureShuffleArray array) w (fun result w' =>
                array ≡ₚ result /\ length result = length array
                /\ consumed (length array - 1) w w')).
  { apply post_secureShuffleArray. intros l' w' Hperm Hc.
    split; [exact Hperm |]. split; [| exact Hc].
    symmetry. apply Permutation_length, Hperm. }
  apply post_elim in P as (result & w' & E & HP). eauto.
Qed.

(** X2. [secureRandomChar] on a non-empty string returns a one-character
    string made of a character of its argument, after exactly one draw, and
    each character of the argument is returned for some draw; on the empty
    string the range check of [randomInt] throws its [RangeError], whose
    message names [max] as out of range, and nothing is drawn. *)
Theorem secureRandomChar_spec (chars : list N) (w : Entropy) :
  (chars = [] ->
   secureRandomChar chars w
   = (Throw (RangeError (out_of_range_message 0 0)), w))
  /\ (chars <> [] ->
      (exists c, secureRandomChar chars w = (Ok [c], advance w) /\ c ∈ chars)
      /\ forall c, c ∈ chars ->
           exists t, secureRandomChar chars {| tape := t; cursor := cursor w |}
                     = (Ok [c], advance {| tape := t; cursor := cursor w |})).
Proof.
  split.
  - intros ->. reflexivity.
  - intros Hne. split.
    + assert (P : post (secureRandomChar chars) w (fun s w' =>
                    exists c, s = [c] /\ w' = advance w /\ c ∈ chars)).
      { apply post_secureRandomChar; [exact Hne |]. intros c Hc. eauto. }
      apply post_elim in P as (s & w' & E & c & -> & -> & Hc). eauto.
    + intros c Hc. apply list_elem_of_lookup in Hc as [i Hi].
      pose proof (lookup_lt_Some _ _ _ Hi) as Hlt.
      exists (fun _ => i).
      unfold secureRandomChar, bind, randomInt, ret. simpl tape. simpl cursor.
      destruct (Nat.ltb_spec 0 (length chars)) as [_ | H0]; [| lia].
      rewrite Nat.sub_0_r, Nat.add_0_l, Nat.mod_small by exact Hlt.
      rewrite Hi. reflexivity.
Qed.

Lemma secureRandomChar_spec_witness :
  secureRandomChar [] sample_entropy
  = (Throw (RangeError (out_of_range_message 0 0)), sample_entropy)
  /\ exists c, secureRandomChar CHARS.numbers sample_entropy
               = (Ok [c], advance sample_entropy) /\ c ∈ CHARS.numbers.
Proof.
  split.
  - apply (secureRandomChar_spec [] sample_entropy). reflexivity.
  - apply (secureRandomChar_spec CHARS.numbers sample_entropy). discriminate.
Defined.

Lemma is_lower_range c : is_lower c = ((97 <=? c) && (c <=? 122))%N.
Proof. reflexivity. Qed.

Lemma is_upper_range c : is_upper c = ((65 <=? c) && (c <=? 90))%N.
Proof. reflexivity. Qed.

Lemma is_digit_range c : is_digit c = ((48 <=? c) && (c <=? 57))%N.
Proof. reflexivity. Qed.

Lemma pool_flags_allow o : Forall (fun c => flags_allow o c = true) (pool o).
Proof.
  apply Forall_of_forallb.
  unfold pool, flags_allow, uppercase_chars, lowercase_chars, numbers_chars,
    symbols_chars.
  destruct (uppercase_on o), (lowercase_on o), (numbers_on o), (symbols_on o),
    (exclude_on o); vm_compute; reflexivity.
Qed.

(** X3. A generated password is made of characters of the enabled classes
    only: each of its characters comes from the cumulative charset, belongs
    to one of the four classes, and belongs to none that is switched off. *)
Theorem generatePassword_only_enabled_classes (o : GenerateOptions) (w : Entropy) :
  any_class o = true ->
  exists pw w',
    generatePassword o w = (Ok pw, w')
    /\ forall c, c ∈ pw ->
         c ∈ pool o
         /\ (is_upper c = true -> uppercase_on o = true)
         /\ (is_lower c = true -> lowercase_on o = true)
         /\ (is_digit c = true -> numbers_on o = true)
         /\ (is_symbol c = true -> symbols_on o = true)
         /\ (is_upper c || is_lower c || is_digit c || is_symbol c = true).
Proof.
  intros Hany.
  destruct (generatePassword_run o w Hany)
    as (pw & w' & pu & pl & pn & ps & rest & E & Hperm & Hu & Hl & Hn & Hs
        & Hrest & _).
  exists pw, w'. split; [exact E |]. intros c Hc.
  pose proof (run_in_pool o pu pl pn ps rest pw Hperm Hu Hl Hn Hs Hrest) as Hpool.
  rewrite Forall_forall in Hpool. specialize (Hpool c Hc).
  split; [exact Hpool |].
  pose proof (pool_flags_allow o) as Hfl. rewrite Forall_forall in Hfl.
  specialize (Hfl c Hpool). unfold flags_allow in Hfl.
  destruct (is_upper c), (is_lower c), (is_digit c), (is_symbol c),
    (uppercase_on o), (lowercase_on o), (numbers_on o), (symbols_on o);
    simpl in Hfl; try discriminate; repeat split; trivial; discriminate.
Qed.

Lemma generatePassword_only_enabled_classes_witness :
  exists pw w',
    generatePassword unambiguous_options sample_entropy = (Ok pw, w')
    /\ forall c, c ∈ pw ->
         c ∈ pool unambiguous_options
         /\ (is_upper c = true -> uppercase_on unambiguous_options = true)
         /\ (is_lower c = true -> lowercase_on unambiguous_options = true)
         /\ (is_digit c = true -> numbers_on unambiguous_options = true)
         /\ (is_symbol c = true -> symbols_on unambiguous_options = true)
         /\ (is_upper c || is_lower c || is_digit c || is_symbol c = true).
Proof.
  apply (generatePassword_only_enabled_classes unambiguous_options sample_entropy).
  reflexivity.
Defined.

(** X4. A call of [generatePassword] that forms a password of [L]
    characters makes exactly [2 * L - 1] draws: one per character, then one
    per round of the shuffle. *)
Theorem generatePassword_draws (o : GenerateOptions) (w : Entropy) :
  any_class o = true ->
  exists pw w',
    generatePassword o w = (Ok pw, w')
    /\ tape w' = tape w
    /\ cursor w' = (cursor w + (2 * length pw - 1))%nat
    /\ (1 <= length pw)%nat.
Proof.
  intros Hany.
  destruct (generatePassword_run o w Hany)
    as (pw & w' & pu & pl & pn & ps & rest & E & _ & _ & _ & _ & _ & _ & Hlen
        & Ht & Hc).
  exists pw, w'. repeat split; trivial.
  assert (0 < enabled_classes o)%nat.
  { unfold any_class, enabled_classes in *.
    destruct (uppercase_on o), (lowercase_on o), (numbers_on o),
      (symbols_on o); simpl in *; try lia; discriminate. }
  lia.
Qed.

Lemma generatePassword_draws_witness :
  exists pw w',
    generatePassword default_options sample_entropy = (Ok pw, w')
    /\ tape w' = tape sample_entropy
    /\ cursor w' = (cursor sample_entropy + (2 * length pw - 1))%nat
    /\ (1 <= length pw)%nat.
Proof.
  apply (generatePassword_draws default_options sample_entropy). reflexivity.
Defined.

(** * Further properties of the batch generator *)

Lemma successive_each (o : GenerateOptions) w ps w' :
  any_class o = true ->
  successive o w ps w' ->
  Forall (fun p =>
            Z.of_nat (length p)
            = Z.max (requested_length o) (Z.of_nat (enabled_classes o))
            /\ Forall (fun c => c ∈ pool o) p) ps
  /\ consumed
       (length ps
        * (2 * Z.to_nat (Z.max (requested_length o)
                               (Z.of_nat (enabled_classes o))) - 1)) w w'.
Proof.
  intros Hany Hs. induction Hs as [w | w p w1 ps w2 E Hcur Hs IH].
  - split; [constructor | apply consumed_0].
  - destruct IH as [IHall IHc].
    destruct (generatePassword_run o w Hany)
      as (p0 & w0 & pu & pl & pn & pss & rest & E0 & Hperm & Hu & Hl & Hn & Hsy
          & Hrest & Hlen & Hc).
    rewrite E in E0. injection E0 as <- <-.
    split.
    + constructor; [| exact IHall]. split; [exact Hlen |].
      eapply run_in_pool; eassumption.
    + simpl length. rewrite <- Hlen, Nat2Z.id in *.
      replace (S (length ps) * (2 * length p - 1))%nat
        with ((2 * length p - 1) + length ps * (2 * length p - 1))%nat by lia.
      eapply consumed_trans; eassumption.
Qed.

(** X5. For a count of zero or less [generateBatch] returns the empty
    sequence without an error and without a draw, whatever the options,
    those with no class enabled included. *)
Theorem generateBatch_nonpositive (count : Z) (o : GenerateOptions) (w : Entropy) :
  count <= 0 -> generateBatch count o w = (Ok [], w).
Proof.
  intros H. unfold generateBatch.
  replace (Z.to_nat (Z.min count 100)) with 0%nat by lia. reflexivity.
Qed.

Lemma generateBatch_nonpositive_witness :
  generateBatch 0 no_class_options sample_entropy = (Ok [], sample_entropy).
Proof.
  apply (generateBatch_nonpositive 0 no_class_options sample_entropy). lia.
Defined.

(** X6. Every password of a batch has the length a single call gives,
    the maximum of the requested length and the number of enabled classes,
    and is made of characters of the cumulative charset; a batch of [n]
    passwords of length [L] makes [n * (2 * L - 1)] draws. *)
Theorem generateBatch_each_password (o : GenerateOptions) (count : Z) (w : Entropy) :
  any_class o = true -> 1 <= count ->
  exists pws w',
    generateBatch count o w = (Ok pws, w')
    /\ Forall (fun p =>
                 Z.of_nat (length p)
                 = Z.max (requested_length o) (Z.of_nat (enabled_classes o))
                 /\ Forall (fun c => c ∈ pool o) p) pws
    /\ consumed
         (length pws
          * (2 * Z.to_nat (Z.max (requested_length o)
                                 (Z.of_nat (enabled_classes o))) - 1)) w w'.
Proof.
  intros Hany Hcount.
  assert (P : post (generateBatch count o) w (fun pws w' => successive o w pws w')).
  { unfold generateBatch. cbv zeta. apply post_batch_loop; [exact Hany |].
    intros ps w' _ Hs. exact Hs. }
  apply post_elim in P as (pws & w' & E & Hs).
  exists pws, w'. split; [exact E |]. apply successive_each; assumption.
Qed.

Lemma generateBatch_each_password_witness :
  exists pws w',
    generateBatch 3 default_options sample_entropy = (Ok pws, w')
    /\ Forall (fun p =>
                 Z.of_nat (length p)
                 = Z.max (requested_length default_options)
                         (Z.of_nat (enabled_classes default_options))
                 /\ Forall (fun c => c ∈ pool default_options) p) pws
    /\ consumed
         (length pws
          * (2 * Z.to_nat (Z.max (requested_length default_options)
                                 (Z.of_nat (enabled_classes default_options)))
             - 1)) sample_entropy w'.
Proof.
  apply (generateBatch_each_password default_options 3 sample_entropy);
    [reflexivity | lia].
Defined.

(** X7. With no class enabled and a count of at least 1, [generateBatch]
    fails on its first call of the generator with that call's error, before
    any draw; no partial batch is returned. *)
Theorem generateBatch_no_class_fails (o : GenerateOptions) (count : Z) (w : Entropy) :
  any_class o = false -> 1 <= count ->
  generateBatch count o w
  = (Throw (Error "At least one character type must be enabled"), w).
Proof.
  intros Hany Hcount. unfold generateBatch. cbv zeta.
  destruct (Z.to_nat (Z.min count 100)) as [| n] eqn:En; [lia |].
  simpl. unfold bind. rewrite (generatePassword_no_class o w Hany). reflexivity.
Qed.

Lemma generateBatch_no_class_fails_witness :
  generateBatch 150 no_class_options sample_entropy
  = (Throw (Error "At least one character type must be enabled"), sample_entropy).
Proof.
  apply (generateBatch_no_class_fails no_class_options 150 sample_entropy);
    [reflexivity | lia].
Defined.

(** * Further properties of the analyzer *)

Lemma if_plus (b : bool) (s k : Z) :
  (if b then s + k else s) = s + Z.b2z b * k.
Proof. destruct b; simpl; lia. Qed.

Lemma if_minus (b : bool) (s k : Z) :
  (if b then s - k else s) = s - Z.b2z b * k.
Proof. destruct b; simpl; lia. Qed.

Lemma if_push (b : bool) (f : list (list N)) (msg : string) :
  (if b then f ++ [js msg] else f) = f ++ advice_if b msg.
Proof. destruct b; simpl; [reflexivity | rewrite app_nil_r; reflexivity]. Qed.

(** The score and the feedback of the result in closed form. *)
Lemma analyzeStrength_score (pw : list N) :
  score (analyzeStrength pw)
  = Z.max 0 (Z.min 10 (length_bonus pw + class_bonus pw - penalties pw)).
Proof.
  unfold analyzeStrength. cbv zeta. cbn [score].
  rewrite !if_minus, !if_plus, !regex_test_class.
  unfold length_bonus, class_bonus, penalties, is_letter. cbv zeta. f_equal. f_equal. lia.
Qed.

Lemma analyzeStrength_level (pw : list N) :
  level (analyzeStrength pw) = level_of (score (analyzeStrength pw)).
Proof. unfold analyzeStrength. cbv zeta. cbn [level score]. reflexivity. Qed.

Lemma analyzeStrength_feedback (pw : list N) :
  feedback (analyzeStrength pw)
  = if (length (advice pw) =? 0)%nat
    then [js "Password looks strong!"] else advice pw.
Proof.
  unfold analyzeStrength. cbv zeta. cbn [feedback].
  rewrite !if_push, !regex_test_class. rewrite app_nil_l.
  fold is_letter.
  match goal with |- ?r ++ _ = _ => replace r with (advice pw) end.
  - destruct (advice pw); [reflexivity |]. simpl. rewrite app_nil_r. reflexivity.
  - unfold advice. rewrite <- !app_assoc. reflexivity.
Qed.

Lemma in_class_elem (cls : list N) (c : N) : in_class cls c = true <-> c ∈ cls.
Proof.
  unfold in_class. rewrite existsb_exists. split.
  - intros (x & Hx & Heq). apply N.eqb_eq in Heq. subst x.
    apply list_elem_of_In. exact Hx.
  - intros H. exists c. split; [apply list_elem_of_In, H | apply N.eqb_refl].
Qed.

(** The code units of a range, one by one. *)
Lemma range_enum (lo len : nat) (c : N) :
  (N.of_nat lo <= c < N.of_nat (lo + len))%N ->
  c ∈ map N.of_nat (seq lo len).
Proof.
  intros H. apply list_elem_of_In. rewrite <- (N2Nat.id c). apply in_map.
  apply in_seq. lia.
Qed.

Lemma is_upper_elem (c : N) : is_upper c = true <-> c ∈ CHARS.uppercase.
Proof.
  split.
  - rewrite is_upper_range. intros [H1 H2]%andb_prop.
    apply N.leb_le in H1, H2. apply (range_enum 65 26). lia.
  - intros H. pose proof (Forall_of_forallb is_upper CHARS.uppercase eq_refl) as F.
    rewrite Forall_forall in F. apply F, H.
Qed.

Lemma is_lower_elem (c : N) : is_lower c = true <-> c ∈ CHARS.lowercase.
Proof.
  split.
  - rewrite is_lower_range. intros [H1 H2]%andb_prop.
    apply N.leb_le in H1, H2. apply (range_enum 97 26). lia.
  - intros H. pose proof (Forall_of_forallb is_lower CHARS.lowercase eq_refl) as F.
    rewrite Forall_forall in F. apply F, H.
Qed.

Lemma is_digit_elem (c : N) : is_digit c = true <-> c ∈ CHARS.numbers.
Proof.
  split.
  - rewrite is_digit_range. intros [H1 H2]%andb_prop.
    apply N.leb_le in H1, H2. apply (range_enum 48 10). lia.
  - intros H. pose proof (Forall_of_forallb is_digit CHARS.numbers eq_refl) as F.
    rewrite Forall_forall in F. apply F, H.
Qed.

Lemma is_symbol_elem (c : N) : is_symbol c = true <-> c ∈ CHARS.symbols.
Proof. apply in_class_elem. Qed.

Lemma classes_disjoint_on (l : list N) (c : N) :
  forallb (fun c => negb (is_upper c && is_lower c)
                    && negb (is_upper c && is_digit c)
                    && negb (is_upper c && is_symbol c)
                    && negb (is_lower c && is_digit c)
                    && negb (is_lower c && is_symbol c)
                    && negb (is_digit c && is_symbol c)) l = true ->
  c ∈ l ->
  Z.b2z (is_upper c) + Z.b2z (is_lower c) + Z.b2z (is_digit c)
  + Z.b2z (is_symbol c) <= 1.
Proof.
  intros Hl Hc. apply Forall_of_forallb in Hl. rewrite Forall_forall in Hl.
  specialize (Hl c Hc).
  destruct (is_upper c), (is_lower c), (is_digit c), (is_symbol c);
    simpl in *; try discriminate; lia.
Qed.

(** A character belongs to at most one of the four classes. *)
Lemma classes_disjoint (c : N) :
  Z.b2z (is_upper c) + Z.b2z (is_lower c) + Z.b2z (is_digit c)
  + Z.b2z (is_symbol c) <= 1.
Proof.
  assert (Pu : is_upper c = true ->
               Z.b2z (is_upper c) + Z.b2z (is_lower c) + Z.b2z (is_digit c)
               + Z.b2z (is_symbol c) <= 1).
  { intros H%is_upper_elem.
    apply (classes_disjoint_on CHARS.uppercase); [vm_compute; reflexivity | exact H]. }
  assert (Pl : is_lower c = true ->
               Z.b2z (is_upper c) + Z.b2z (is_lower c) + Z.b2z (is_digit c)
               + Z.b2z (is_symbol c) <= 1).
  { intros H%is_lower_elem.
    apply (classes_disjoint_on CHARS.lowercase); [vm_compute; reflexivity | exact H]. }
  assert (Pd : is_digit c = true ->
               Z.b2z (is_upper c) + Z.b2z (is_lower c) + Z.b2z (is_digit c)
               + Z.b2z (is_symbol c) <= 1).
  { intros H%is_digit_elem.
    apply (classes_disjoint_on CHARS.numbers); [vm_compute; reflexivity | exact H]. }
  destruct (is_upper c); [exact (Pu eq_refl) |].
  destruct (is_lower c); [exact (Pl eq_refl) |].
  destruct (is_digit c); [exact (Pd eq_refl) |].
  destruct (is_symbol c); simpl; lia.
Qed.

(** X8. The analyzer recognises exactly the characters the generator draws
    from: a code unit is in the analyzer's uppercase, lowercase, digit or
    symbol class if and only if it is in the generator's charset of that
    name, and no code unit is in two classes.  The symbol class has 26
    members, although the entropy estimate counts 32 for it. *)
Theorem analyzer_classes_are_generator_charsets (c : N) :
  (is_upper c = true <-> c ∈ CHARS.uppercase)
  /\ (is_lower c = true <-> c ∈ CHARS.lowercase)
  /\ (is_digit c = true <-> c ∈ CHARS.numbers)
  /\ (is_symbol c = true <-> c ∈ CHARS.symbols)
  /\ (Z.b2z (is_upper c) + Z.b2z (is_lower c) + Z.b2z (is_digit c)
      + Z.b2z (is_symbol c) <= 1)
  /\ length CHARS.symbols = 26%nat
  /\ alphabet_size [c] = (if is_symbol c then 32
                          else if is_digit c then 10
                          else if is_upper c || is_lower c then 26 else 0).
Proof.
  split; [apply is_upper_elem |]. split; [apply is_lower_elem |].
  split; [apply is_digit_elem |]. split; [apply is_symbol_elem |].
  split; [apply classes_disjoint |]. split; [reflexivity |].
  pose proof (classes_disjoint c) as D. unfold alphabet_size. simpl existsb.
  destruct (is_upper c), (is_lower c), (is_digit c), (is_symbol c);
    simpl in *; try lia; reflexivity.
Qed.

Lemma length_bonus_bounds (pw : list N) : 0 <= length_bonus pw <= 4.
Proof.
  unfold length_bonus. cbv zeta.
  destruct (8 <=? _), (12 <=? _), (16 <=? _), (20 <=? _); simpl; lia.
Qed.

Lemma class_bonus_bounds (pw : list N) : 0 <= class_bonus pw <= 4.
Proof.
  unfold class_bonus.
  destruct (existsb is_lower pw), (existsb is_upper pw),
    (existsb is_digit pw), (existsb is_symbol pw); simpl; lia.
Qed.

Lemma penalties_nonneg (pw : list N) : 0 <= penalties pw.
Proof.
  unfold penalties.
  destruct (_ <? 8), (regex_test repeat_here pw), (all_of is_letter pw),
    (all_of is_digit pw), (regex_test (alternation_here_i sequential_patterns) pw),
    (regex_test (alternation_here_i keyboard_patterns) pw); simpl; lia.
Qed.

(** X9. No password scores above 8: the four length points and the four
    class points are all there is to gain, so the level [very_strong] is
    never given. *)
Theorem analyzeStrength_never_very_strong (pw : list N) :
  score (analyzeStrength pw) <= 8
  /\ level (analyzeStrength pw) <> very_strong.
Proof.
  assert (H : score (analyzeStrength pw) <= 8).
  { rewrite analyzeStrength_score.
    pose proof (length_bonus_bounds pw). pose proof (class_bonus_bounds pw).
    pose proof (penalties_nonneg pw). lia. }
  split; [exact H |].
  rewrite analyzeStrength_level. unfold level_of.
  repeat match goal with |- context [?a <=? ?b] =>
    destruct (Z.leb_spec a b); try discriminate end.
  lia.
Qed.

Lemma elem_advice_if (m : list N) (b : bool) (msg : string) :
  m ∈ advice_if b msg <-> b = true /\ m = js msg.
Proof.
  destruct b; simpl.
  - rewrite list_elem_of_singleton. intuition.
  - split; [intros H; inversion H | intros [H _]; discriminate].
Qed.

Lemma advice_if_nil (b : bool) (msg : string) :
  advice_if b msg = [] <-> b = false.
Proof. destruct b; simpl; split; intros H; try reflexivity; discriminate. Qed.

Lemma advice_sublist (pw : list N) : advice pw `sublist_of` all_advice.
Proof.
  unfold advice, all_advice.
  repeat match goal with
         | |- advice_if ?b ?s ++ _ `sublist_of` _ :: _ =>
             apply (sublist_app (advice_if b s) [js s]);
             [destruct b; simpl; [reflexivity | apply sublist_nil_l] |]
         end.
  match goal with |- advice_if ?b _ `sublist_of` _ =>
    destruct b; simpl; [reflexivity | apply sublist_nil_l] end.
Qed.

Lemma all_advice_NoDup : NoDup all_advice.
Proof.
  apply (bool_decide_unpack _). vm_compute. exact I.
Qed.

Ltac distinct_messages :=
  match goal with
  | H : js _ = js _ |- _ => vm_compute in H; discriminate H
  end.

Lemma strong_not_advice (pw : list N) : js "Password looks strong!" ∉ advice pw.
Proof.
  intros H. pose proof (sublist_submseteq _ _ (advice_sublist pw)) as S.
  pose proof (elem_of_submseteq _ _ _ H S) as H'.
  revert H'.
  apply (bool_decide_eq_false_1 (js "Password looks strong!" ∈ all_advice)).
  vm_compute. reflexivity.
Qed.

(** X10. The feedback of every analysis is either the single message
    "Password looks strong!" or a selection of the ten pieces of advice in
    the order of the rules; no message occurs twice, and the strong message
    never stands beside a piece of advice. *)
Theorem analyzeStrength_feedback_in_rule_order (pw : list N) :
  NoDup (feedback (analyzeStrength pw))
  /\ (feedback (analyzeStrength pw) = [js "Password looks strong!"]
      \/ (feedback (analyzeStrength pw) `sublist_of` all_advice
          /\ js "Password looks strong!" ∉ feedback (analyzeStrength pw))).
Proof.
  rewrite analyzeStrength_feedback.
  destruct (advice pw) as [| m ms] eqn:E; simpl.
  - split; [apply NoDup_singleton | left; reflexivity].
  - rewrite <- E. split.
    + eapply sublist_NoDup; [apply all_advice_NoDup | apply advice_sublist].
    + right. split; [apply advice_sublist | apply strong_not_advice].
Qed.

Lemma forallb_excludes (f g : N -> bool) (pw : list N) :
  (forall c, f c = true -> g c = false) ->
  forallb f pw = true -> existsb g pw = false.
Proof.
  intros Hfg. induction pw as [| c pw IH]; simpl; [reflexivity |].
  intros [Hc Hpw]%andb_prop. rewrite (Hfg c Hc), (IH Hpw). reflexivity.
Qed.

Lemma forallb_existsb (f : N -> bool) (pw : list N) :
  pw <> [] -> forallb f pw = true -> existsb f pw = true.
Proof.
  destruct pw as [| c pw]; [congruence |]. simpl.
  intros _ [Hc _]%andb_prop. rewrite Hc. reflexivity.
Qed.

Lemma existsb_not_forallb (f g : N -> bool) (pw : list N) :
  (forall c, f c = true -> g c = false) ->
  existsb f pw = true -> forallb g pw = false.
Proof.
  intros Hfg. induction pw as [| c pw IH]; simpl; [discriminate |].
  intros [Hc | Hpw]%orb_prop.
  - rewrite (Hfg c Hc). reflexivity.
  - rewrite (IH Hpw). apply andb_false_r.
Qed.

Lemma digit_not_letter (c : N) : is_digit c = true -> is_letter c = false.
Proof.
  pose proof (classes_disjoint c). unfold is_letter.
  destruct (is_upper c), (is_lower c), (is_digit c), (is_symbol c);
    simpl in *; try lia; intros; congruence.
Qed.

Lemma digit_not_digit_others (c : N) :
  is_digit c = true ->
  is_lower c = false /\ is_upper c = false /\ is_symbol c = false.
Proof.
  pose proof (classes_disjoint c).
  destruct (is_upper c), (is_lower c), (is_digit c), (is_symbol c);
    simpl in *; try lia; intros; repeat split; congruence.
Qed.

Lemma letter_not_others (c : N) :
  is_letter c = true -> is_digit c = false /\ is_symbol c = false.
Proof.
  pose proof (classes_disjoint c). unfold is_letter.
  destruct (is_upper c), (is_lower c), (is_digit c), (is_symbol c);
    simpl in *; try lia; intros; repeat split; congruence.
Qed.

Lemma all_of_spec (cls : N -> bool) (pw : list N) :
  all_of cls pw = true <-> pw <> [] /\ forallb cls pw = true.
Proof.
  unfold all_of. destruct pw as [| c pw]; simpl.
  - split; [discriminate | intros [H _]; congruence].
  - split; [intros H; split; [discriminate | exact H] | intros [_ H]; exact H].
Qed.

Lemma digit_excludes_letters_only (pw : list N) :
  existsb is_digit pw = true -> all_of is_letter pw = false.
Proof.
  intros H. unfold all_of.
  rewrite (existsb_not_forallb is_digit is_letter pw); [apply andb_false_r | | exact H].
  apply digit_not_letter.
Qed.

Lemma lower_excludes_digits_only (pw : list N) :
  existsb is_lower pw = true -> all_of is_digit pw = false.
Proof.
  intros H. unfold all_of.
  rewrite (existsb_not_forallb is_lower is_digit pw); [apply andb_false_r | | exact H].
  intros c Hc. destruct (is_digit c) eqn:Hd; [| reflexivity].
  destruct (digit_not_digit_others c Hd) as [Hl _]. congruence.
Qed.

(** X11. The analysis gives no advice, and says "Password looks strong!",
    exactly when the password has at least 8 characters, holds a lowercase
    letter, an uppercase letter, a digit and a symbol, and shows no
    repeated, sequential or keyboard pattern; such a password scores its
    four class points plus its length points, between 5 and 8. *)
Theorem analyzeStrength_looks_strong (pw : list N) :
  (feedback (analyzeStrength pw) = [js "Password looks strong!"]
   <-> (8 <= length pw)%nat
       /\ existsb is_lower pw = true /\ existsb is_upper pw = true
       /\ existsb is_digit pw = true /\ existsb is_symbol pw = true
       /\ regex_test repeat_here pw = false
       /\ regex_test (alternation_here_i sequential_patterns) pw = false
       /\ regex_test (alternation_here_i keyboard_patterns) pw = false)
  /\ (feedback (analyzeStrength pw) = [js "Password looks strong!"] ->
      score (analyzeStrength pw) = 4 + length_bonus pw
      /\ 5 <= score (analyzeStrength pw) <= 8).
Proof.
  assert (Hiff : advice pw = []
                 <-> (8 <= length pw)%nat
                     /\ existsb is_lower pw = true /\ existsb is_upper pw = true
                     /\ existsb is_digit pw = true /\ existsb is_symbol pw = true
                     /\ regex_test repeat_here pw = false
                     /\ regex_test (alternation_here_i sequential_patterns) pw = false
                     /\ regex_test (alternation_here_i keyboard_patterns) pw = false).
  { unfold advice. rewrite !app_nil, !advice_if_nil, !negb_false_iff, Z.ltb_ge.
    split.
    - intros (H1 & H2 & H3 & H4 & H5 & H6 & _ & _ & H9 & H10).
      repeat split; trivial; lia.
    - intros (H1 & H2 & H3 & H4 & H5 & H6 & H9 & H10).
      repeat split; trivial; try lia.
      + apply digit_excludes_letters_only, H4.
      + apply lower_excludes_digits_only, H2. }
  assert (Hfb : feedback (analyzeStrength pw) = [js "Password looks strong!"]
                <-> advice pw = []).
  { rewrite analyzeStrength_feedback. split.
    - destruct (advice pw) as [| m ms] eqn:E; [reflexivity |]. simpl.
      intros H. exfalso. apply (strong_not_advice pw). rewrite E, H.
      apply list_elem_of_here.
    - intros ->. reflexivity. }
  split; [rewrite Hfb; exact Hiff |].
  intros H. apply Hfb, Hiff in H as (H1 & H2 & H3 & H4 & H5 & H6 & H9 & H10).
  assert (E : score (analyzeStrength pw) = 4 + length_bonus pw).
  { rewrite analyzeStrength_score.
    assert (Hc : class_bonus pw = 4).
    { unfold class_bonus. rewrite H2, H3, H4, H5. reflexivity. }
    assert (Hp : penalties pw = 0).
    { unfold penalties. rewrite H6, H9, H10.
      replace (Z.of_nat (length pw) <? 8) with false
        by (symmetry; apply Z.ltb_ge; lia).
      rewrite (digit_excludes_letters_only pw H4),
        (lower_excludes_digits_only pw H2).
      reflexivity. }
    pose proof (length_bonus_bounds pw). lia. }
  split; [exact E |].
  pose proof (length_bonus_bounds pw).
  assert (1 <= length_bonus pw).
  { unfold length_bonus. cbv zeta.
    destruct (Z.leb_spec 8 (Z.of_nat (length pw))); [| lia].
    destruct (12 <=? _), (16 <=? _), (20 <=? _); simpl; lia. }
  lia.
Qed.

Lemma analyzeStrength_looks_strong_witness :
  score (analyzeStrength (js "Gx7!mQ2#")) = 4 + length_bonus (js "Gx7!mQ2#")
  /\ 5 <= score (analyzeStrength (js "Gx7!mQ2#")) <= 8.
Proof.
  apply (analyzeStrength_looks_strong (js "Gx7!mQ2#")).
  apply (analyzeStrength_looks_strong (js "Gx7!mQ2#")).
  vm_compute. repeat split; lia.
Defined.

Lemma feedback_advice_elem (pw : list N) (m : list N) :
  m <> js "Password looks strong!" ->
  (m ∈ feedback (analyzeStrength pw) <-> m ∈ advice pw).
Proof.
  intros Hm. rewrite analyzeStrength_feedback.
  destruct (advice pw) as [| a l]; simpl; [| reflexivity].
  rewrite list_elem_of_singleton. split; [contradiction | intros H; inversion H].
Qed.

Lemma add_advice_absent (pw : list N) :
  (js "Add lowercase letters" ∈ feedback (analyzeStrength pw) ->
   existsb is_lower pw = false)
  /\ (js "Add uppercase letters" ∈ feedback (analyzeStrength pw) ->
      existsb is_upper pw = false)
  /\ (js "Add numbers" ∈ feedback (analyzeStrength pw) ->
      existsb is_digit pw = false)
  /\ (js "Add special characters" ∈ feedback (analyzeStrength pw) ->
      existsb is_symbol pw = false).
Proof.
  repeat split.
  all: intros H; apply feedback_advice_elem in H;
    [| intros E; vm_compute in E; discriminate E];
    unfold advice in H; rewrite !elem_of_app, !elem_advice_if in H;
    repeat match type of H with
           | _ \/ _ => destruct H as [[H0 H] | H]
           | _ /\ _ => destruct H as [H0 H]
           end;
    try distinct_messages; apply negb_true_iff; exact H0.
Qed.

(** X12. Each of the four "Add ..." messages is in the feedback exactly when
    the password has no character of that class. *)
Theorem analyzeStrength_missing_class_advice (pw : list N) :
  (js "Add lowercase letters" ∈ feedback (analyzeStrength pw)
   <-> existsb is_lower pw = false)
  /\ (js "Add uppercase letters" ∈ feedback (analyzeStrength pw)
      <-> existsb is_upper pw = false)
  /\ (js "Add numbers" ∈ feedback (analyzeStrength pw)
      <-> existsb is_digit pw = false)
  /\ (js "Add special characters" ∈ feedback (analyzeStrength pw)
      <-> existsb is_symbol pw = false).
Proof.
  destruct (add_advice_absent pw) as (A1 & A2 & A3 & A4).
  repeat split; trivial.
  all: intros H; apply feedback_advice_elem;
    [intros E; vm_compute in E; discriminate E |];
    unfold advice; rewrite !elem_of_app, !elem_advice_if, H; simpl; tauto.
Qed.

Lemma level_of_le_2 (s : Z) : s <= 2 -> level_of s = very_weak.
Proof. intros H. unfold level_of. destruct (Z.leb_spec s 2); [reflexivity | lia]. Qed.

(** X13. A password of fewer than 8 characters never scores above 2: it is
    rated [very_weak] whatever it is made of, and the first piece of
    feedback says that it is too short. *)
Theorem analyzeStrength_short_password (pw : list N) :
  (length pw < 8)%nat ->
  score (analyzeStrength pw) <= 2
  /\ level (analyzeStrength pw) = very_weak
  /\ feedback (analyzeStrength pw) !! 0%nat
     = Some (js "Password is too short (minimum 8 characters)").
Proof.
  intros Hlen.
  assert (Hs : score (analyzeStrength pw) <= 2).
  { rewrite analyzeStrength_score.
    pose proof (class_bonus_bounds pw).
    assert (length_bonus pw = 0).
    { unfold length_bonus. cbv zeta.
      destruct (Z.leb_spec 8 (Z.of_nat (length pw))); [lia |].
      destruct (Z.leb_spec 12 (Z.of_nat (length pw))); [lia |].
      destruct (Z.leb_spec 16 (Z.of_nat (length pw))); [lia |].
      destruct (Z.leb_spec 20 (Z.of_nat (length pw))); [lia | reflexivity]. }
    assert (2 <= penalties pw).
    { unfold penalties.
      destruct (Z.ltb_spec (Z.of_nat (length pw)) 8); [| lia].
      destruct (regex_test repeat_here pw), (all_of is_letter pw),
        (all_of is_digit pw),
        (regex_test (alternation_here_i sequential_patterns) pw),
        (regex_test (alternation_here_i keyboard_patterns) pw); simpl; lia. }
    lia. }
  split; [exact Hs |]. split.
  - rewrite analyzeStrength_level. apply level_of_le_2, Hs.
  - rewrite analyzeStrength_feedback. unfold advice.
    destruct (Z.ltb_spec (Z.of_nat (length pw)) 8); [| lia]. reflexivity.
Qed.

Lemma analyzeStrength_short_password_witness :
  score (analyzeStrength (js "aB3$xY9")) <= 2
  /\ level (analyzeStrength (js "aB3$xY9")) = very_weak
  /\ feedback (analyzeStrength (js "aB3$xY9")) !! 0%nat
     = Some (js "Password is too short (minimum 8 characters)").
Proof.
  apply (analyzeStrength_short_password (js "aB3$xY9")). vm_compute. lia.
Defined.

(** X14. A password made of digits only never scores above 3, so it is
    rated [very_weak] or [weak], and one made of letters only never scores
    above 5; the first is told "Include letters and symbols", the second
    "Mix in numbers and symbols", and no password is told both. *)
Theorem analyzeStrength_single_kind (pw : list N) :
  (pw <> [] -> forallb is_digit pw = true ->
   score (analyzeStrength pw) <= 3
   /\ (level (analyzeStrength pw) = very_weak
       \/ level (analyzeStrength pw) = weak)
   /\ js "Include letters and symbols" ∈ feedback (analyzeStrength pw))
  /\ (pw <> [] -> forallb is_letter pw = true ->
      score (analyzeStrength pw) <= 5
      /\ js "Mix in numbers and symbols" ∈ feedback (analyzeStrength pw))
  /\ ~ (js "Include letters and symbols" ∈ feedback (analyzeStrength pw)
        /\ js "Mix in numbers and symbols" ∈ feedback (analyzeStrength pw)).
Proof.
  split; [| split].
  - intros Hne Hall.
    assert (Hd : all_of is_digit pw = true) by (apply all_of_spec; auto).
    assert (Hs : score (analyzeStrength pw) <= 3).
    { rewrite analyzeStrength_score.
      pose proof (length_bonus_bounds pw).
      assert (class_bonus pw = 1).
      { unfold class_bonus.
        rewrite (forallb_excludes is_digit is_lower pw),
          (forallb_excludes is_digit is_upper pw),
          (forallb_excludes is_digit is_symbol pw),
          (forallb_existsb is_digit pw); trivial;
          intros c Hc; apply digit_not_digit_others, Hc. }
      assert (2 <= penalties pw).
      { unfold penalties. rewrite Hd.
        destruct (_ <? 8), (regex_test repeat_here pw), (all_of is_letter pw),
          (regex_test (alternation_here_i sequential_patterns) pw),
          (regex_test (alternation_here_i keyboard_patterns) pw); simpl; lia. }
      lia. }
    split; [exact Hs |]. split.
    + rewrite analyzeStrength_level. unfold level_of.
      destruct (Z.leb_spec (score (analyzeStrength pw)) 2); [left; reflexivity |].
      destruct (Z.leb_spec (score (analyzeStrength pw)) 4); [right; reflexivity | lia].
    + apply feedback_advice_elem; [intros E; vm_compute in E; discriminate E |].
      unfold advice. rewrite !elem_of_app, !elem_advice_if, Hd. tauto.
  - intros Hne Hall.
    assert (Hl : all_of is_letter pw = true) by (apply all_of_spec; auto).
    split.
    + rewrite analyzeStrength_score.
      pose proof (length_bonus_bounds pw).
      assert (class_bonus pw <= 2).
      { unfold class_bonus.
        rewrite (forallb_excludes is_letter is_digit pw),
          (forallb_excludes is_letter is_symbol pw); trivial;
          try (intros c Hc; apply letter_not_others, Hc).
        destruct (existsb is_lower pw), (existsb is_upper pw); simpl; lia. }
      assert (1 <= penalties pw).
      { unfold penalties. rewrite Hl.
        destruct (_ <? 8), (regex_test repeat_here pw), (all_of is_digit pw),
          (regex_test (alternation_here_i sequential_patterns) pw),
          (regex_test (alternation_here_i keyboard_patterns) pw); simpl; lia. }
      lia.
    + apply feedback_advice_elem; [intros E; vm_compute in E; discriminate E |].
      unfold advice. rewrite !elem_of_app, !elem_advice_if, Hl. tauto.
  - intros [H1 H2].
    apply feedback_advice_elem in H1; [| intros E; vm_compute in E; discriminate E].
    apply feedback_advice_elem in H2; [| intros E; vm_compute in E; discriminate E].
    assert (Hd : all_of is_digit pw = true).
    { unfold advice in H1. rewrite !elem_of_app, !elem_advice_if in H1.
      repeat match type of H1 with
             | _ \/ _ => destruct H1 as [[H0 H1] | H1]
             | _ /\ _ => destruct H1 as [H0 H1]
             end; try distinct_messages; exact H0. }
    assert (Hl : all_of is_letter pw = true).
    { unfold advice in H2. rewrite !elem_of_app, !elem_advice_if in H2.
      repeat match type of H2 with
             | _ \/ _ => destruct H2 as [[H0 H2] | H2]
             | _ /\ _ => destruct H2 as [H0 H2]
             end; try distinct_messages; exact H0. }
    apply all_of_spec in Hd as [Hne Hd]. apply all_of_spec in Hl as [_ Hl].
    pose proof (forallb_existsb is_digit pw Hne Hd) as He.
    rewrite (forallb_excludes is_letter is_digit pw) in He;
      [discriminate | | exact Hl].
    intros c Hc. apply letter_not_others, Hc.
Qed.

Lemma analyzeStrength_single_kind_witness :
  (score (analyzeStrength (js "8675309")) <= 3
   /\ (level (analyzeStrength (js "8675309")) = very_weak
       \/ level (analyzeStrength (js "8675309")) = weak)
   /\ js "Include letters and symbols" ∈ feedback (analyzeStrength (js "8675309")))
  /\ (score (analyzeStrength (js "correcthorse")) <= 5
      /\ js "Mix in numbers and symbols"
         ∈ feedback (analyzeStrength (js "correcthorse"))).
Proof.
  split.
  - apply (analyzeStrength_single_kind (js "8675309")); [discriminate | reflexivity].
  - apply (analyzeStrength_single_kind (js "correcthorse")); [discriminate | reflexivity].
Defined.

(** * Further properties of the crack-time estimate *)

Section CrackTimeThresholds.
Local Open Scope R_scope.

Lemma Rpower_2_le (a b : R) : a <= b -> Rpower 2 a <= Rpower 2 b.
Proof. intros H. apply Rle_Rpower; lra. Qed.

Lemma Rpower_2_34 : Rpower 2 34 = 17179869184.
Proof.
  change 34 with (IZR (Z.of_nat 34)). rewrite Rpower_2_nat.
  replace (2 ^ Z.of_nat 34)%Z with 17179869184%Z by (vm_compute; reflexivity).
  reflexivity.
Qed.

Lemma Rpower_2_35 : Rpower 2 35 = 34359738368.
Proof.
  change 35 with (IZR (Z.of_nat 35)). rewrite Rpower_2_nat.
  replace (2 ^ Z.of_nat 35)%Z with 34359738368%Z by (vm_compute; reflexivity).
  reflexivity.
Qed.

Lemma Rpower_2_89 : Rpower 2 89 = 618970019642690137449562112.
Proof.
  change 89 with (IZR (Z.of_nat 89)). rewrite Rpower_2_nat.
  replace (2 ^ Z.of_nat 89)%Z with 618970019642690137449562112%Z
    by (vm_compute; reflexivity).
  reflexivity.
Qed.

Lemma Rpower_2_90 : Rpower 2 90 = 1237940039285380274899124224.
Proof.
  change 90 with (IZR (Z.of_nat 90)). rewrite Rpower_2_nat.
  replace (2 ^ Z.of_nat 90)%Z with 1237940039285380274899124224%Z
    by (vm_compute; reflexivity).
  reflexivity.
Qed.

Lemma crack_seconds_billions (e : R) :
  90 <= e -> 31536000 * 1000000000 <= crack_seconds e.
Proof.
  intros H. unfold crack_seconds, guessesPerSecond.
  pose proof (Rpower_2_le 90 e H) as P. rewrite Rpower_2_90 in P. lra.
Qed.

Lemma estimateCrackTime_billions (e : R) :
  90 <= e -> estimateCrackTime e = js "billions of years".
Proof.
  intros H. pose proof (crack_seconds_billions e H) as P.
  unfold estimateCrackTime. cbv zeta.
  repeat match goal with
         | |- context [Rlt_dec ?a ?b] => destruct (Rlt_dec a b); [lra |]
         end.
  reflexivity.
Qed.

End CrackTimeThresholds.

(** X15. The crack-time estimate turns on the entropy alone: up to 34 bits
    the answer is "instant", and from 35 bits on the estimate is at least a
    second; from 90 bits on the answer is "billions of years", and up to 89
    bits the estimate stays below a billion years. *)
Theorem estimateCrackTime_thresholds (e : R) :
  ((e <= 34)%R -> estimateCrackTime e = js "instant")
  /\ ((35 <= e)%R -> (1 <= crack_seconds e)%R)
  /\ ((90 <= e)%R -> estimateCrackTime e = js "billions of years")
  /\ ((e <= 89)%R -> (crack_seconds e < 31536000 * 1000000000)%R).
Proof.
  split; [| split; [| split]].
  - intros H. unfold estimateCrackTime. cbv zeta.
    assert (P : (crack_seconds e < 1)%R).
    { unfold crack_seconds, guessesPerSecond.
      pose proof (Rpower_2_le e 34 H) as P. rewrite Rpower_2_34 in P. lra. }
    destruct (Rlt_dec (crack_seconds e) 1); [reflexivity | lra].
  - intros H. unfold crack_seconds, guessesPerSecond.
    pose proof (Rpower_2_le 35 e H) as P. rewrite Rpower_2_35 in P. lra.
  - apply estimateCrackTime_billions.
  - intros H. unfold crack_seconds, guessesPerSecond.
    pose proof (Rpower_2_le e 89 H) as P. rewrite Rpower_2_89 in P. lra.
Qed.

Lemma estimateCrackTime_thresholds_witness :
  estimateCrackTime 34 = js "instant"
  /\ (1 <= crack_seconds 35)%R
  /\ estimateCrackTime 90 = js "billions of years"
  /\ (crack_seconds 89 < 31536000 * 1000000000)%R.
Proof.
  split; [| split; [| split]].
  - apply (estimateCrackTime_thresholds 34). lra.
  - apply (estimateCrackTime_thresholds 35). lra.
  - apply (estimateCrackTime_thresholds 90). lra.
  - apply (estimateCrackTime_thresholds 89). lra.
Defined.

(** * Case, and the analysis of generated passwords *)

Lemma canonicalize_idempotent (c : N) :
  canonicalize (canonicalize c) = canonicalize c.
Proof.
  unfold canonicalize. rewrite !is_lower_range.
  destruct ((97 <=? c) && (c <=? 122))%N eqn:E; [| rewrite E; reflexivity].
  apply andb_prop in E as [H1 H2]. apply N.leb_le in H1, H2.
  destruct (N.leb_spec 97 (c - 32)); [lia | reflexivity].
Qed.

Lemma literal_here_i_canonical (pat s : list N) :
  literal_here_i pat (map canonicalize s) = literal_here_i pat s.
Proof.
  revert s. induction pat as [| p pat IH]; intros [| c s]; simpl; trivial.
  rewrite canonicalize_idempotent, IH. reflexivity.
Qed.

Lemma alternation_here_i_canonical (pats : list string) (s : list N) :
  alternation_here_i pats (map canonicalize s) = alternation_here_i pats s.
Proof.
  unfold alternation_here_i. induction pats as [| p pats IH]; simpl; trivial.
  rewrite literal_here_i_canonical, IH. reflexivity.
Qed.

(** X16. The sequential-run and keyboard-pattern tests ignore the case of
    ASCII letters: they give the same verdict on a password and on that
    password with its lowercase letters put in upper case. *)
Theorem pattern_tests_ignore_case (pw : list N) :
  regex_test (alternation_here_i sequential_patterns) (map canonicalize pw)
  = regex_test (alternation_here_i sequential_patterns) pw
  /\ regex_test (alternation_here_i keyboard_patterns) (map canonicalize pw)
     = regex_test (alternation_here_i keyboard_patterns) pw
  /\ map canonicalize (js "qwerty abc") = js "QWERTY ABC".
Proof.
  assert (G : forall pats s,
             regex_test (alternation_here_i pats) (map canonicalize s)
             = regex_test (alternation_here_i pats) s).
  { intros pats s. induction s as [| c s IH].
    - reflexivity.
    - simpl regex_test. rewrite IH.
      change (canonicalize c :: map canonicalize s)
        with (map canonicalize (c :: s)).
      rewrite alternation_here_i_canonical. reflexivity. }
  split; [apply G |]. split; [apply G | reflexivity].
Qed.

Lemma class_chars_recognised (o : GenerateOptions) :
  Forall (fun c => is_upper c = true) (uppercase_chars o)
  /\ Forall (fun c => is_lower c = true) (lowercase_chars o)
  /\ Forall (fun c => is_digit c = true) (numbers_chars o)
  /\ Forall (fun c => is_symbol c = true) (symbols_chars o).
Proof.
  unfold uppercase_chars, lowercase_chars, numbers_chars, symbols_chars.
  destruct (exclude_on o); repeat split; apply Forall_of_forallb;
    vm_compute; reflexivity.
Qed.

Lemma existsb_of_elem (f : N -> bool) (pw : list N) (c : N) :
  c ∈ pw -> f c = true -> existsb f pw = true.
Proof.
  intros Hc Hf. apply existsb_exists. exists c.
  split; [apply list_elem_of_In, Hc | exact Hf].
Qed.

(** X17. Analysing what the generator returns: with the four classes
    enabled, every generated password holds a character of each class for
    the analyzer too, so its alphabet size is 94 and it is given none of the
    "Add ..." messages; if at least 14 characters were requested, its crack
    time reads "billions of years". *)
Theorem generated_password_analysis (o : GenerateOptions) (w : Entropy) :
  uppercase_on o = true -> lowercase_on o = true ->
  numbers_on o = true -> symbols_on o = true ->
  exists pw w',
    generatePassword o w = (Ok pw, w')
    /\ alphabet_size pw = 94
    /\ (forall m, m ∈ feedback (analyzeStrength pw) ->
          m <> js "Add lowercase letters" /\ m <> js "Add uppercase letters"
          /\ m <> js "Add numbers" /\ m <> js "Add special characters")
    /\ (14 <= requested_length o ->
        crackTime (analyzeStrength pw) = js "billions of years").
Proof.
  intros Hu Hl Hn Hs.
  assert (Hany : any_class o = true).
  { unfold any_class. rewrite Hu. reflexivity. }
  destruct (generatePassword_run o w Hany)
    as (pw & w' & pu & pl & pn & ps & rest & E & Hperm & Pu & Pl & Pn & Ps
        & _ & Hlen & _).
  rewrite Hu in Pu. rewrite Hl in Pl. rewrite Hn in Pn. rewrite Hs in Ps.
  destruct (class_chars_recognised o) as (Fu & Fl & Fn & Fs).
  rewrite Forall_forall in Fu, Fl, Fn, Fs.
  destruct (picked_on_elem _ pu pw [] (pl ++ pn ++ ps ++ rest) Pu)
    as (cu' & Hcu & Hcu').
  { rewrite <- Hperm, <- !app_assoc. reflexivity. }
  destruct (picked_on_elem _ pl pw pu (pn ++ ps ++ rest) Pl) as (cl & Hcl & Hcl').
  { rewrite <- Hperm, <- !app_assoc. reflexivity. }
  destruct (picked_on_elem _ pn pw (pu ++ pl) (ps ++ rest) Pn) as (cn & Hcn & Hcn').
  { rewrite <- Hperm, <- !app_assoc. reflexivity. }
  destruct (picked_on_elem _ ps pw (pu ++ pl ++ pn) rest Ps) as (cs & Hcs & Hcs').
  { rewrite <- Hperm, <- !app_assoc. reflexivity. }
  pose proof (existsb_of_elem is_upper pw cu' Hcu (Fu _ Hcu')) as Eu.
  pose proof (existsb_of_elem is_lower pw cl Hcl (Fl _ Hcl')) as El.
  pose proof (existsb_of_elem is_digit pw cn Hcn (Fn _ Hcn')) as En.
  pose proof (existsb_of_elem is_symbol pw cs Hcs (Fs _ Hcs')) as Es.
  assert (HA : alphabet_size pw = 94).
  { unfold alphabet_size. rewrite Eu, El, En, Es. reflexivity. }
  exists pw, w'. split; [exact E |]. split; [exact HA |]. split.
  - intros m Hm. destruct (add_advice_absent pw) as (A1 & A2 & A3 & A4).
    repeat split; intros ->;
      [apply A1 in Hm | apply A2 in Hm | apply A3 in Hm | apply A4 in Hm];
      congruence.
  - intros Hreq. rewrite analyzeStrength_crackTime.
    apply estimateCrackTime_billions.
    unfold entropy_bits, raw_entropy. rewrite HA. simpl Z.eqb. cbv iota.
    assert (Hlen' : (14 <= Z.of_nat (length pw))%Z) by lia.
    apply IZR_le in Hlen'.
    destruct log2_94_bounds as [Hlo _].
    assert (Hlog : (6 <= log2 94)%R) by lra.
    apply Rle_trans with (14 * log2 94)%R; [lra |].
    apply Rmult_le_compat_r; [lra | exact Hlen'].
Qed.

Lemma generated_password_analysis_witness :
  exists pw w',
    generatePassword default_options sample_entropy = (Ok pw, w')
    /\ alphabet_size pw = 94
    /\ (forall m, m ∈ feedback (analyzeStrength pw) ->
          m <> js "Add lowercase letters" /\ m <> js "Add uppercase letters"
          /\ m <> js "Add numbers" /\ m <> js "Add special characters")
    /\ (14 <= requested_length default_options ->
        crackTime (analyzeStrength pw) = js "billions of years").
Proof.
  apply (generated_password_analysis default_options sample_entropy);
    reflexivity.
Defined.

(** * The routes *)

(** X18. [POST /strength] answers 200 exactly for a body whose password is
    a non-empty string of at most 1000 characters, with the analysis of that
    string; a longer string is refused with "Password too long (max 1000
    characters)" and never reaches the analyzer. *)
Theorem strength_handler_cases (body : gmap string JsValue) :
  (forall s, body !! "password"%string = Some (JString s) ->
     (1000 < length s)%nat ->
     strength_handler body = Json400 "Password too long (max 1000 characters)")
  /\ (forall r,
        strength_handler body = Json200 r
        <-> exists s, body !! "password"%string = Some (JString s)
                      /\ s <> [] /\ (length s <= 1000)%nat
                      /\ r = analyzeStrength s).
Proof.
  unfold strength_handler, strength_try.
  destruct (body !! "password"%string) as [[| | b | q | s | |] |] eqn:Hb;
    simpl default; cbn [truthy typeof negb orb].
  all: try (split; [intros s0 Hs0; discriminate Hs0 |];
            intros r; split;
            [ try (destruct b); try (destruct (Qeq_bool q 0)); discriminate
            | intros (s0 & Hs0 & _); discriminate Hs0 ]).
  change (String.eqb "string" "string") with true. cbn [negb orb].
  destruct s as [| c s]; simpl length; cbn [Nat.eqb negb orb].
  - split; [intros s0 [= <-]; simpl; lia |].
    intros r. split; [discriminate |].
    intros (s0 & [= <-] & Hne & _). congruence.
  - split.
    + intros s0 [= <-] Hlen.
      destruct (Nat.ltb_spec 1000 (S (length s))); [reflexivity | simpl in Hlen; lia].
    + intros r. destruct (Nat.ltb_spec 1000 (S (length s))) as [Hgt | Hle].
      * split; [discriminate |].
        intros (s0 & [= <-] & _ & Hlen & _). simpl in Hlen. lia.
      * split.
        -- intros [= <-]. exists (c :: s). repeat split; [discriminate | simpl; lia].
        -- intros (s0 & [= <-] & _ & _ & ->). reflexivity.
Qed.

Lemma strength_handler_cases_witness :
  strength_handler {[ "password"%string := JString (repeat (cu "a") 1001) ]}
  = Json400 "Password too long (max 1000 characters)".
Proof.
  apply (proj1 (strength_handler_cases
                  {[ "password"%string := JString (repeat (cu "a") 1001) ]})
               (repeat (cu "a") 1001)).
  - reflexivity.
  - rewrite repeat_length. lia.
Defined.

Lemma validate_cases (tn : JsValue -> JsNum + string) (body : gmap string JsValue) :
  (validateGenerateOptions tn body
   = Throw (Error "Length must be between 4 and 128")
   /\ exists v n, present (body !! "length"%string) = Some v
                  /\ ToNumber tn v = Ok n
                  /\ forall q, n = Fin q -> ~ (4 <= q <= 128)%Q)
  \/ (exists v msg, present (body !! "length"%string) = Some v
                    /\ ToNumber tn v = Throw (TypeError msg)
                    /\ validateGenerateOptions tn body = Throw (TypeError msg))
  \/ (exists o, validateGenerateOptions tn body = Ok o
                /\ Req.uppercase o = truthy <$> present (body !! "uppercase"%string)
                /\ Req.lowercase o = truthy <$> present (body !! "lowercase"%string)
                /\ Req.numbers o = truthy <$> present (body !! "numbers"%string)
                /\ Req.symbols o = truthy <$> present (body !! "symbols"%string)
                /\ Req.excludeAmbiguous o
                   = truthy <$> present (body !! "excludeAmbiguous"%string)
                /\ match present (body !! "length"%string) with
                   | None => Req.length o = None
                   | Some v => exists q, ToNumber tn v = Ok (Fin q)
                                         /\ Req.length o = Some q
                                         /\ (4 <= q <= 128)%Q
                   end).
Proof.
  unfold validateGenerateOptions. cbv zeta.
  destruct (present (body !! "length"%string)) as [v |].
  - assert (T : (exists n, ToNumber tn v = Ok n)
                \/ exists msg, ToNumber tn v = Throw (TypeError msg)).
    { unfold ToNumber. destruct v; eauto; destruct (tn _); eauto. }
    destruct T as [[n En] | [msg En]]; rewrite En.
    + destruct n as [| q | |]; simpl.
      * left. split; [reflexivity |]. exists v, NaN. repeat split; trivial.
        discriminate.
      * destruct (Qle_bool 4 q) eqn:E4; simpl.
        -- destruct (Qle_bool q 128) eqn:E128; simpl.
           ++ right. right. eexists. split; [reflexivity |]. simpl.
              repeat split; trivial. exists q. repeat split; trivial;
                apply Qle_bool_iff; assumption.
           ++ left. split; [reflexivity |]. exists v, (Fin q).
              repeat split; trivial. intros q' [= <-] [_ H].
              apply Qle_bool_iff in H. congruence.
        -- left. split; [reflexivity |]. exists v, (Fin q).
           repeat split; trivial. intros q' [= <-] [H _].
           apply Qle_bool_iff in H. congruence.
      * left. split; [reflexivity |]. exists v, PosInf. repeat split; trivial.
        discriminate.
      * left. split; [reflexivity |]. exists v, NegInf. repeat split; trivial.
        discriminate.
    + right. left. exists v, msg. repeat split; trivial.
  - right. right. eexists. split; [reflexivity |]. simpl. repeat split; trivial.
Qed.

(** X19. [validateGenerateOptions] can fail in two ways only, and only on a
    length that is present: with "Length must be between 4 and 128", or
    with the [TypeError] of [Number(body.length)] when the length is an
    object that cannot be converted.  A length it accepts is a number
    between 4 and 128, whole or not, and a body without a length is
    accepted with the length left out.  For a numeric length the bounds
    decide: it is accepted exactly between 4 and 128, both included. *)
Theorem validateGenerateOptions_length (tn : JsValue -> JsNum + string)
    (body : gmap string JsValue) :
  (forall e, validateGenerateOptions tn body = Throw e ->
     present (body !! "length"%string) <> None
     /\ (e = Error "Length must be between 4 and 128"
         \/ exists v msg, present (body !! "length"%string) = Some v
                          /\ ToNumber tn v = Throw (TypeError msg)
                          /\ e = TypeError msg))
  /\ (forall o, validateGenerateOptions tn body = Ok o ->
        match Req.length o with
        | Some q => (4 <= q <= 128)%Q
        | None => present (body !! "length"%string) = None
        end)
  /\ (forall q, body !! "length"%string = Some (JNumber q) ->
        ((4 <= q <= 128)%Q <->
         exists o, validateGenerateOptions tn body = Ok o
                   /\ Req.length o = Some q)).
Proof.
  destruct (validate_cases tn body)
    as [[E (v & n & Hv & Hn & Hq)]
       | [(v & msg & Hv & Hn & E) | (o & E & _ & _ & _ & _ & _ & Hlen)]].
  - split; [| split].
    + intros e He. rewrite E in He. injection He as <-.
      split; [rewrite Hv; discriminate | left; reflexivity].
    + intros o Ho. rewrite E in Ho. discriminate.
    + intros q Hb. rewrite Hb in Hv. simpl in Hv. injection Hv as <-.
      simpl in Hn. injection Hn as <-.
      split.
      * intros Hr. exfalso. apply (Hq q); [reflexivity | exact Hr].
      * intros (o & Ho & _). rewrite E in Ho. discriminate.
  - split; [| split].
    + intros e He. rewrite E in He. injection He as <-.
      split; [rewrite Hv; discriminate | right; eauto].
    + intros o Ho. rewrite E in Ho. discriminate.
    + intros q Hb. rewrite Hb in Hv. simpl in Hv. injection Hv as <-.
      simpl in Hn. discriminate Hn.
  - split; [| split].
    + intros e He. rewrite E in He. discriminate.
    + intros o' Ho'. rewrite E in Ho'. injection Ho' as <-.
      destruct (present (body !! "length"%string)) as [v |].
      * destruct Hlen as (q & _ & -> & Hr). exact Hr.
      * rewrite Hlen. reflexivity.
    + intros q Hb. rewrite Hb in Hlen. simpl in Hlen.
      destruct Hlen as (q' & [= <-] & Hl & Hr).
      split; [intros _; exists o; auto | intros _; exact Hr].
Qed.

Lemma validateGenerateOptions_length_witness :
  (4 <= 4.5 <= 128)%Q <->
  exists o, validateGenerateOptions (fun _ => inl NaN)
              {[ "length"%string := JNumber 4.5 ]}
            = Ok o
            /\ Req.length o = Some 4.5%Q.
Proof.
  apply (validateGenerateOptions_length (fun _ => inl NaN)
           {[ "length"%string := JNumber 4.5 ]}).
  reflexivity.
Defined.

Lemma flag_off_iff (v : option JsValue) :
  default true (truthy <$> present v) = false
  <-> exists x, present v = Some x /\ truthy x = false.
Proof.
  destruct (present v) as [x |]; simpl.
  - split; [intros H; eauto | intros (y & [= <-] & H); exact H].
  - split; [discriminate | intros (y & H & _); discriminate].
Qed.

(** X20. The validation reads the five flags by truthiness: a class is
    switched off exactly when its field is present with a falsy value
    ([false], [0], [null] or the empty string), so that any non-empty
    string, "false" included, switches it on; an absent field leaves the
    default. *)
Theorem validateGenerateOptions_flags (tn : JsValue -> JsNum + string)
    (body : gmap string JsValue) (o : Req.t) :
  validateGenerateOptions tn body = Ok o ->
  (uppercase_on (core_options o) = false
   <-> exists x, present (body !! "uppercase"%string) = Some x /\ truthy x = false)
  /\ (lowercase_on (core_options o) = false
      <-> exists x, present (body !! "lowercase"%string) = Some x /\ truthy x = false)
  /\ (numbers_on (core_options o) = false
      <-> exists x, present (body !! "numbers"%string) = Some x /\ truthy x = false)
  /\ (symbols_on (core_options o) = false
      <-> exists x, present (body !! "symbols"%string) = Some x /\ truthy x = false)
  /\ (exclude_on (core_options o) = true
      <-> exists x, present (body !! "excludeAmbiguous"%string) = Some x
                    /\ truthy x = true)
  /\ truthy (JString (js "false")) = true.
Proof.
  intros E.
  destruct (validate_cases tn body)
    as [[E' _] | [(v & m & _ & _ & E') | (o' & E' & Hu & Hl & Hn & Hs & He & _)]];
    rewrite E in E'; [discriminate | discriminate | injection E' as <-].
  unfold uppercase_on, lowercase_on, numbers_on, symbols_on, exclude_on,
    core_options. simpl.
  rewrite Hu, Hl, Hn, Hs, He.
  repeat split; try apply flag_off_iff.
  - destruct (present (body !! "excludeAmbiguous"%string)) as [x |]; simpl;
      [eauto | discriminate].
  - destruct (present (body !! "excludeAmbiguous"%string)) as [x |]; simpl;
      intros (y & H & Hy); [injection H as <-; exact Hy | discriminate].
Qed.

Lemma validateGenerateOptions_flags_witness :
  exists x, present (falsy_flags_body !! "symbols"%string) = Some x
            /\ truthy x = false.
Proof.
  assert (E : validateGenerateOptions (fun _ => inl NaN) falsy_flags_body
              = Ok (Req.mk None (Some false) (Some false) (Some false)
                           (Some false) None)) by reflexivity.
  apply (validateGenerateOptions_flags (fun _ => inl NaN) falsy_flags_body _ E).
  reflexivity.
Defined.

Lemma validated_length_bounds (tn : JsValue -> JsNum + string)
    (body : gmap string JsValue) (o : Req.t) :
  validateGenerateOptions tn body = Ok o ->
  requested_length (core_options o) = Qceiling (echo_length (echo o))
  /\ 4 <= requested_length (core_options o) <= 128.
Proof.
  intros E.
  destruct (validate_cases tn body)
    as [[E' _] | [(v & m & _ & _ & E') | (o' & E' & _ & _ & _ & _ & _ & Hlen)]];
    rewrite E in E'; [discriminate | discriminate | injection E' as <-].
  unfold requested_length, core_options, echo. simpl.
  destruct (present (body !! "length"%string)) as [v |].
  - destruct Hlen as (q & _ & -> & H4 & H128). simpl.
    split; [reflexivity |].
    apply Qceiling_resp_le in H4, H128.
    change (Qceiling 4) with 4 in H4. change (Qceiling 128) with 128 in H128.
    lia.
  - rewrite Hlen. simpl. split; [reflexivity | lia].
Qed.

Lemma enabled_classes_le_4 (o : GenerateOptions) : (enabled_classes o <= 4)%nat.
Proof.
  unfold enabled_classes.
  destruct (uppercase_on o), (lowercase_on o), (numbers_on o), (symbols_on o);
    simpl; lia.
Qed.

(** X21. A successful [POST /generate] never widens the password: for
    every body the validation accepts with a class left enabled, the answer
    is 200 with a password whose length is the requested length (16 by
    default) rounded up to a whole number, between 4 and 128, together with
    the options as resolved; the call takes [2 * length - 1] draws. *)
Theorem generate_handler_success (tn : JsValue -> JsNum + string)
    (body : gmap string JsValue) (w : Entropy) (o : Req.t) :
  validateGenerateOptions tn body = Ok o ->
  any_class (core_options o) = true ->
  exists pw w',
    generate_handler tn body w = (Generate200 pw (echo o), w')
    /\ Z.of_nat (length pw) = Qceiling (echo_length (echo o))
    /\ (4 <= length pw <= 128)%nat
    /\ consumed (2 * length pw - 1) w w'.
Proof.
  intros E Hany.
  destruct (generatePassword_run (core_options o) w Hany)
    as (pw & w' & pu & pl & pn & ps & rest & Eg & _ & _ & _ & _ & _ & _ & Hlen & Hc).
  destruct (validated_length_bounds tn body o E) as [Hreq Hb].
  pose proof (enabled_classes_le_4 (core_options o)).
  exists pw, w'. unfold generate_handler. rewrite E, Eg.
  split; [reflexivity |]. split; [rewrite <- Hreq; lia |].
  split; [lia | exact Hc].
Qed.

Lemma generate_handler_success_witness :
  exists pw w',
    generate_handler (fun _ => inl NaN) ∅ sample_entropy
    = (Generate200 pw (echo (Req.mk None None None None None None)), w')
    /\ Z.of_nat (length pw)
       = Qceiling (echo_length (echo (Req.mk None None None None None None)))
    /\ (4 <= length pw <= 128)%nat
    /\ consumed (2 * length pw - 1) sample_entropy w'.
Proof.
  apply (generate_handler_success (fun _ => inl NaN) ∅ sample_entropy);
    reflexivity.
Defined.

(** X22. [POST /generate] answers 400 in three ways and no other: with
    "Length must be between 4 and 128" from the validation, with the
    message of the [TypeError] of [Number(body.length)] when the length is
    an object that cannot be converted, or with "At least one character type
    must be enabled" for an accepted body that switches every class off.  A
    refused request draws no randomness. *)
Theorem generate_handler_failure (tn : JsValue -> JsNum + string)
    (body : gmap string JsValue) (w w' : Entropy) (msg : string) :
  generate_handler tn body w = (Generate400 msg, w') ->
  w' = w
  /\ ((msg = "Length must be between 4 and 128"%string
       /\ validateGenerateOptions tn body
          = Throw (Error "Length must be between 4 and 128"))
      \/ (exists v, present (body !! "length"%string) = Some v
                    /\ ToNumber tn v = Throw (TypeError msg))
      \/ (msg = "At least one character type must be enabled"%string
          /\ exists o, validateGenerateOptions tn body = Ok o
                       /\ any_class (core_options o) = false)).
Proof.
  unfold generate_handler.
  destruct (validate_cases tn body)
    as [[E _] | [(v & m & Hv & Hn & E) | (o & E & _)]]; rewrite E.
  - simpl. intros [= <- <-]. split; [reflexivity |]. left. auto.
  - simpl. intros [= <- <-]. split; [reflexivity |]. right. left. eauto.
  - destruct (any_class (core_options o)) eqn:Hany.
    + destruct (generatePassword_run (core_options o) w Hany)
        as (pw & w1 & pu & pl & pn & ps & rest & Eg & _).
      rewrite Eg. discriminate.
    + rewrite (generatePassword_no_class _ w Hany). simpl.
      intros [= <- <-]. split; [reflexivity |]. right. right. eauto.
Qed.

Lemma generate_handler_failure_witness :
  sample_entropy = sample_entropy
  /\ (("At least one character type must be enabled"%string
       = "Length must be between 4 and 128"%string
       /\ validateGenerateOptions (fun _ => inl NaN) falsy_flags_body
          = Throw (Error "Length must be between 4 and 128"))
      \/ (exists v, present (falsy_flags_body !! "length"%string) = Some v
                    /\ ToNumber (fun _ => inl NaN) v
                       = Throw (TypeError
                                  "At least one character type must be enabled"))
      \/ ("At least one character type must be enabled"%string
          = "At least one character type must be enabled"%string
          /\ exists o, validateGenerateOptions (fun _ => inl NaN) falsy_flags_body = Ok o
                       /\ any_class (core_options o) = false)).
Proof.
  apply (generate_handler_failure (fun _ => inl NaN) falsy_flags_body
           sample_entropy sample_entropy).
  reflexivity.
Defined.

Lemma validate_without_count (tn : JsValue -> JsNum + string) (body : gmap string JsValue) :
  validateGenerateOptions tn (delete "count"%string body)
  = validateGenerateOptions tn body.
Proof.
  unfold validateGenerateOptions.
  rewrite !lookup_delete_ne by discriminate. reflexivity.
Qed.

Lemma batch_loop_no_class (o : GenerateOptions) (n : nat)
    (passwords : list (list N)) (w : Entropy) :
  any_class o = false ->
  batch_loop (S n) o passwords w
  = (Throw (Error "At least one character type must be enabled"), w).
Proof.
  intros Hany. simpl. unfold bind.
  rewrite (generatePassword_no_class o w Hany). reflexivity.
Qed.

Lemma count_in_range (q : Q) :
  negb (Qle_bool 1 q) || negb (Qle_bool q 100) = false <-> (1 <= q <= 100)%Q.
Proof.
  rewrite orb_false_iff, !negb_false_iff, !Qle_bool_iff. reflexivity.
Qed.

Lemma Qceiling_count (q : Q) : (1 <= q <= 100)%Q -> 1 <= Qceiling q <= 100.
Proof.
  intros [H1 H100]. apply Qceiling_resp_le in H1, H100.
  change (Qceiling 1) with 1 in H1. change (Qceiling 100) with 100 in H100. lia.
Qed.

(** X23. [POST /batch] checks the count before anything else: a count that
    is present but is no number, or a number outside 1 to 100, is refused
    with "Count must be between 1 and 100" whatever the other fields hold,
    and draws nothing; a body without a count is served as with a count of
    5. *)
Theorem batch_handler_count_guard (tn : JsValue -> JsNum + string)
    (body : gmap string JsValue) (w : Entropy) :
  (forall v, present (body !! "count"%string) = Some v ->
     (forall q, v = JNumber q -> ~ (1 <= q <= 100)%Q) ->
     batch_handler tn body w = (Batch400 "Count must be between 1 and 100", w))
  /\ (present (body !! "count"%string) = None ->
      batch_handler tn body w
      = batch_handler tn (<[ "count"%string := JNumber 5 ]> body) w).
Proof.
  split.
  - intros v Hv Hq. unfold batch_handler. rewrite Hv. simpl default.
    destruct v as [| | b | q | s | |]; try reflexivity.
    destruct (negb (Qle_bool 1 q) || negb (Qle_bool q 100)) eqn:E; [reflexivity |].
    apply count_in_range in E. exfalso. apply (Hq q); [reflexivity | exact E].
  - intros Hnone. unfold batch_handler.
    rewrite Hnone, lookup_insert_eq, delete_insert_eq. reflexivity.
Qed.

Lemma batch_handler_count_guard_witness :
  batch_handler (fun _ => inl NaN) {[ "count"%string := JString (js "5") ]}
    sample_entropy
  = (Batch400 "Count must be between 1 and 100", sample_entropy)
  /\ batch_handler (fun _ => inl NaN) ∅ sample_entropy
     = batch_handler (fun _ => inl NaN) (<[ "count"%string := JNumber 5 ]> ∅)
         sample_entropy.
Proof.
  split.
  - apply (proj1 (batch_handler_count_guard (fun _ => inl NaN)
                    {[ "count"%string := JString (js "5") ]} sample_entropy)
             (JString (js "5"))).
    + reflexivity.
    + intros q H. discriminate H.
  - apply (batch_handler_count_guard (fun _ => inl NaN) ∅ sample_entropy).
    reflexivity.
Defined.

(** X24. A successful [POST /batch]: for a numeric count between 1 and 100
    and options the validation accepts with a class left enabled, the answer
    is 200; the [count] it reports is the number of passwords returned,
    which is the requested count rounded up to a whole number, and every
    password has the requested length rounded up. *)
Theorem batch_handler_success (tn : JsValue -> JsNum + string)
    (body : gmap string JsValue) (w : Entropy) (q : Q) (o : Req.t) :
  body !! "count"%string = Some (JNumber q) ->
  (1 <= q <= 100)%Q ->
  validateGenerateOptions tn body = Ok o ->
  any_class (core_options o) = true ->
  exists pws w',
    batch_handler tn body w = (Batch200 (length pws) pws (echo o), w')
    /\ Z.of_nat (length pws) = Qceiling q
    /\ (1 <= length pws <= 100)%nat
    /\ Forall (fun p => Z.of_nat (length p) = Qceiling (echo_length (echo o)))
              pws.
Proof.
  intros Hb Hq E Hany.
  pose proof (Qceiling_count q Hq) as Hc.
  assert (P : post (generateBatch (Qceiling q) (core_options o)) w
                (fun pws w' =>
                   length pws = Z.to_nat (Z.min (Qceiling q) 100)
                   /\ successive (core_options o) w pws w')).
  { unfold generateBatch. cbv zeta. apply post_batch_loop; [exact Hany |].
    intros ps w' Hlen Hs. simpl app. auto. }
  apply post_elim in P as (pws & w' & Eb & Hlen & Hs).
  destruct (successive_each _ _ _ _ Hany Hs) as [Hall _].
  destruct (validated_length_bounds tn body o E) as [Hreq Hbound].
  pose proof (enabled_classes_le_4 (core_options o)).
  exists pws, w'. unfold batch_handler. rewrite Hb.
  change (default (JNumber 5) (present (Some (JNumber q)))) with (JNumber q).
  cbv beta iota zeta.
  rewrite (proj2 (count_in_range q) Hq), validate_without_count, E, Eb.
  split; [reflexivity |]. split; [lia |]. split; [lia |].
  eapply Forall_impl; [exact Hall |]. intros p [Hp _]. rewrite <- Hreq. lia.
Qed.

Lemma batch_handler_success_witness :
  exists pws w',
    batch_handler (fun _ => inl NaN) fractional_batch_body sample_entropy
    = (Batch200 (length pws) pws
         (echo (Req.mk (Some 9.25%Q) None None None None None)), w')
    /\ Z.of_nat (length pws) = Qceiling 7.5
    /\ (1 <= length pws <= 100)%nat
    /\ Forall (fun p => Z.of_nat (length p)
                        = Qceiling (echo_length
                                      (echo (Req.mk (Some 9.25%Q) None None None
                                                    None None)))) pws.
Proof.
  apply (batch_handler_success (fun _ => inl NaN) fractional_batch_body
           sample_entropy 7.5).
  - reflexivity.
  - split; [apply Qle_bool_iff | apply Qle_bool_iff]; reflexivity.
  - reflexivity.
  - reflexivity.
Defined.

(** X25. [POST /batch] answers 400 in four ways and no other: with the
    message of the count, with that of the length, with the message of the
    [TypeError] of [Number(body.length)] when the length is an object that
    cannot be converted, or with that of the classes; in each case no
    randomness has been drawn, so a refused batch never consumes entropy
    nor returns a part of the passwords. *)
Theorem batch_handler_failure (tn : JsValue -> JsNum + string)
    (body : gmap string JsValue) (w w' : Entropy) (msg : string) :
  batch_handler tn body w = (Batch400 msg, w') ->
  w' = w
  /\ (msg = "Count must be between 1 and 100"%string
      \/ msg = "Length must be between 4 and 128"%string
      \/ (exists v, present (body !! "length"%string) = Some v
                    /\ ToNumber tn v = Throw (TypeError msg))
      \/ msg = "At least one character type must be enabled"%string).
Proof.
  unfold batch_handler.
  destruct (default (JNumber 5) (present (body !! "count"%string)))
    as [| | b | q | s | |]; try (intros [= <- <-]; auto).
  destruct (negb (Qle_bool 1 q) || negb (Qle_bool q 100)) eqn:Ec;
    [intros [= <- <-]; auto |].
  apply count_in_range in Ec. pose proof (Qceiling_count q Ec) as Hc.
  rewrite validate_without_count.
  destruct (validate_cases tn body)
    as [[E _] | [(v & m & Hv & Hn & E) | (o & E & _)]]; rewrite E.
  - simpl. intros [= <- <-]. auto.
  - simpl. intros [= <- <-]. split; [reflexivity |]. right. right. left. eauto.
  - destruct (any_class (core_options o)) eqn:Hany.
    + assert (P : post (generateBatch (Qceiling q) (core_options o)) w
                    (fun _ _ => True)).
      { unfold generateBatch. cbv zeta. apply post_batch_loop; [exact Hany |].
        trivial. }
      apply post_elim in P as (pws & w1 & Eb & _). rewrite Eb. discriminate.
    + unfold generateBatch. cbv zeta.
      destruct (Z.to_nat (Z.min (Qceiling q) 100)) as [| n] eqn:En; [lia |].
      rewrite (batch_loop_no_class _ n [] w Hany). simpl.
      intros [= <- <-]. auto 6.
Qed.

Lemma batch_handler_failure_witness :
  sample_entropy = sample_entropy
  /\ ("At least one character type must be enabled"%string
      = "Count must be between 1 and 100"%string
      \/ "At least one character type must be enabled"%string
         = "Length must be between 4 and 128"%string
      \/ (exists v, present (falsy_flags_body !! "length"%string) = Some v
                    /\ ToNumber (fun _ => inl NaN) v
                       = Throw (TypeError
                                  "At least one character type must be enabled"))
      \/ "At least one character type must be enabled"%string
         = "At least one character type must be enabled"%string).
Proof.
  apply (batch_handler_failure (fun _ => inl NaN) falsy_flags_body
           sample_entropy sample_entropy).
  reflexivity.
Defined.
